(** * black-hole: the CPU-side layer of [main.cpp]

    A shallow embedding of the orbit camera, the body list and its
    gravity integrator, the curvature-grid generator and the two
    pieces of the compute dispatch that do not talk to OpenGL (the
    resolution choice and the packing of the objects block).

    [main.cpp] computes with [float] and [double].  The embedding is
    written once over an interface [Arith] of the two number types and
    is read at two instances:
    - [IEEE]: binary32 and binary64 with round-to-nearest-even, built
      on the Standard Library's executable [SpecFloat]; every concrete
      evaluation below is done there, bit for bit;
    - [Ideal]: both types are the real numbers and no operation
      rounds; the analytic statements (limits, trigonometry) are made
      there.

    Every C++ operation is taken in the type the language gives it
    ([float] op [float] in binary32, anything with a [double] operand
    in binary64, conversions where the source has them or where the
    usual arithmetic conversions put them), without excess precision
    and without fused multiply-add. *)

From Stdlib Require Import ZArith Reals Lra Lia.
From Stdlib Require Import Floats.SpecFloat.
From stdpp Require Import base list numbers.

Set Default Proof Using "Type".
Local Open Scope Z_scope.

(** ** The arithmetic of [float] and [double] *)

Class Arith := {
  flt : Type;                        (* float *)
  dbl : Type;                        (* double *)
  f_lit : Z -> Z -> flt;             (* the literal m·10^e with suffix f *)
  d_lit : Z -> Z -> dbl;             (* the literal m·10^e *)
  f_pi : flt;                        (* std::numbers::pi_v<float> *)
  f_of_int : Z -> flt;               (* int -> float *)
  f2d : flt -> dbl;                  (* float -> double *)
  d2f : dbl -> flt;                  (* double -> float *)
  f_add : flt -> flt -> flt;
  f_sub : flt -> flt -> flt;
  f_mul : flt -> flt -> flt;
  f_div : flt -> flt -> flt;
  f_sqrt : flt -> flt;
  f_ltb : flt -> flt -> bool;
  d_add : dbl -> dbl -> dbl;
  d_sub : dbl -> dbl -> dbl;
  d_mul : dbl -> dbl -> dbl;
  d_div : dbl -> dbl -> dbl;
  d_sqrt : dbl -> dbl;
  d_ltb : dbl -> dbl -> bool
}.

(** [std::sin] and [std::cos] on [float] come from the C library and
    are not fixed by IEEE 754, so they are a separate interface. *)
Class Trig (A : Arith) := {
  f_sin : flt -> flt;
  f_cos : flt -> flt
}.

(** [std::tan] on [float], from the C library like [std::sin]. *)
Class Tangent (A : Arith) := {
  f_tan : flt -> flt
}.

(** [std::ceil] on [float], and the conversion [static_cast<GLuint>]
    of a [float], which is defined only for a value whose truncation
    fits the 32-bit unsigned type. *)
Class Rounding (A : Arith) := {
  f_ceil : flt -> flt;
  f_to_uint : flt -> option Z
}.

Declare Scope flt_scope.
Delimit Scope flt_scope with flt.
Declare Scope dbl_scope.
Delimit Scope dbl_scope with dbl.

Notation "a + b" := (f_add a b) : flt_scope.
Notation "a - b" := (f_sub a b) : flt_scope.
Notation "a * b" := (f_mul a b) : flt_scope.
Notation "a / b" := (f_div a b) : flt_scope.
Notation "a <? b" := (f_ltb a b) : flt_scope.
Notation "a >? b" := (f_ltb b a) : flt_scope.
Notation "a + b" := (d_add a b) : dbl_scope.
Notation "a - b" := (d_sub a b) : dbl_scope.
Notation "a * b" := (d_mul a b) : dbl_scope.
Notation "a / b" := (d_div a b) : dbl_scope.
Notation "a <? b" := (d_ltb a b) : dbl_scope.
Notation "a >? b" := (d_ltb b a) : dbl_scope.

(** ** GLFW constants used by the input handlers (from GLFW/glfw3.h) *)

Definition GLFW_RELEASE : Z := 0.
Definition GLFW_PRESS : Z := 1.
Definition GLFW_MOUSE_BUTTON_LEFT : Z := 0.
Definition GLFW_MOUSE_BUTTON_RIGHT : Z := 1.
Definition GLFW_MOUSE_BUTTON_MIDDLE : Z := 2.
Definition GLFW_KEY_G : Z := 71.

Section Program.
Context {A : Arith}.

(** ** glm vectors *)

Record vec3 := Vec3 { v3x : flt; v3y : flt; v3z : flt }.
Record vec4 := Vec4 { v4x : flt; v4y : flt; v4z : flt; v4w : flt }.

(* vec3(s) *)
Definition vec3_splat (s : flt) : vec3 := Vec3 s s s.
(* vec3(v4): the xyz part *)
Definition vec3_of_vec4 (v : vec4) : vec3 := Vec3 (v4x v) (v4y v) (v4z v).
(* vec4(v3, w) *)
Definition vec4_of_vec3 (v : vec3) (w : flt) : vec4 := Vec4 (v3x v) (v3y v) (v3z v) w.

Definition vec3_add (a b : vec3) : vec3 :=
  Vec3 (v3x a + v3x b)%flt (v3y a + v3y b)%flt (v3z a + v3z b)%flt.
Definition vec3_sub (a b : vec3) : vec3 :=
  Vec3 (v3x a - v3x b)%flt (v3y a - v3y b)%flt (v3z a - v3z b)%flt.
Definition vec3_scale (a : vec3) (s : flt) : vec3 :=
  Vec3 (v3x a * s)%flt (v3y a * s)%flt (v3z a * s)%flt.
Definition vec3_div (a : vec3) (s : flt) : vec3 :=
  Vec3 (v3x a / s)%flt (v3y a / s)%flt (v3z a / s)%flt.
Definition vec4_add (a b : vec4) : vec4 :=
  Vec4 (v4x a + v4x b)%flt (v4y a + v4y b)%flt (v4z a + v4z b)%flt (v4w a + v4w b)%flt.

(* glm::dot and glm::length on vec3 *)
Definition dot (a b : vec3) : flt :=
  ((v3x a * v3x b + v3y a * v3y b) + v3z a * v3z b)%flt.
Definition length3 (v : vec3) : flt := f_sqrt (dot v v).

(** ** Constants *)

Definition PI : flt := f_pi.
Definition C : dbl := d_lit 299792458 0.
Definition G : dbl := d_lit 667430 (-16).

(* std::clamp(v, lo, hi) *)
Definition std_clamp (v lo hi : flt) : flt :=
  if (v <? lo)%flt then lo else if (hi <? v)%flt then hi else v.

(* glm::min, glm::max, glm::clamp *)
Definition glm_min (x y : flt) : flt := if (y <? x)%flt then y else x.
Definition glm_max (x y : flt) : flt := if (x <? y)%flt then y else x.
Definition glm_clamp (x minVal maxVal : flt) : flt :=
  glm_min (glm_max x minVal) maxVal.


(** ** The orbit camera ([struct Camera]) *)

Record Camera := {
  target : vec3;
  radius : flt;
  minRadius : flt;
  maxRadius : flt;
  azimuth : flt;
  elevation : flt;
  orbitSpeed : flt;
  panSpeed : flt;
  zoomSpeed : dbl;
  dragging : bool;
  panning : bool;
  moving : bool;
  lastX : dbl;
  lastY : dbl
}.

(* The default member initialisers; [Camera camera;] *)
Definition camera : Camera := {|
  target := vec3_splat (f_lit 0 0);
  radius := f_lit 138 9;
  minRadius := f_lit 1 10;
  maxRadius := f_lit 1 12;
  azimuth := f_lit (-235) (-2);
  elevation := f_lit 15 (-1);
  orbitSpeed := f_lit 1 (-2);
  panSpeed := f_lit 1 (-2);
  zoomSpeed := f2d (f_lit 25 9);
  dragging := false;
  panning := false;
  moving := false;
  lastX := d_lit 0 0;
  lastY := d_lit 0 0
|}.

Definition set_orbit (c : Camera) (az el : flt) : Camera :=
  {| target := target c; radius := radius c; minRadius := minRadius c;
     maxRadius := maxRadius c; azimuth := az; elevation := el;
     orbitSpeed := orbitSpeed c; panSpeed := panSpeed c;
     zoomSpeed := zoomSpeed c; dragging := dragging c;
     panning := panning c; moving := moving c;
     lastX := lastX c; lastY := lastY c |}.

Definition set_radius (c : Camera) (r : flt) : Camera :=
  {| target := target c; radius := r; minRadius := minRadius c;
     maxRadius := maxRadius c; azimuth := azimuth c; elevation := elevation c;
     orbitSpeed := orbitSpeed c; panSpeed := panSpeed c;
     zoomSpeed := zoomSpeed c; dragging := dragging c;
     panning := panning c; moving := moving c;
     lastX := lastX c; lastY := lastY c |}.

Definition set_last (c : Camera) (x y : dbl) : Camera :=
  {| target := target c; radius := radius c; minRadius := minRadius c;
     maxRadius := maxRadius c; azimuth := azimuth c; elevation := elevation c;
     orbitSpeed := orbitSpeed c; panSpeed := panSpeed c;
     zoomSpeed := zoomSpeed c; dragging := dragging c;
     panning := panning c; moving := moving c;
     lastX := x; lastY := y |}.

Definition set_buttons (c : Camera) (d p : bool) : Camera :=
  {| target := target c; radius := radius c; minRadius := minRadius c;
     maxRadius := maxRadius c; azimuth := azimuth c; elevation := elevation c;
     orbitSpeed := orbitSpeed c; panSpeed := panSpeed c;
     zoomSpeed := zoomSpeed c; dragging := d;
     panning := p; moving := moving c;
     lastX := lastX c; lastY := lastY c |}.

Definition set_moving (c : Camera) (m : bool) : Camera :=
  {| target := target c; radius := radius c; minRadius := minRadius c;
     maxRadius := maxRadius c; azimuth := azimuth c; elevation := elevation c;
     orbitSpeed := orbitSpeed c; panSpeed := panSpeed c;
     zoomSpeed := zoomSpeed c; dragging := dragging c;
     panning := panning c; moving := m;
     lastX := lastX c; lastY := lastY c |}.

(* Camera::position *)
Definition position {T : Trig A} (c : Camera) : vec3 :=
  let clampedElevation :=
    std_clamp (elevation c) (f_lit 1 (-2)) (PI - f_lit 1 (-2))%flt in
  Vec3 (radius c * f_sin clampedElevation * f_cos (azimuth c))%flt
       (radius c * f_cos clampedElevation)%flt
       (radius c * f_sin clampedElevation * f_sin (azimuth c))%flt.

(* Camera::update *)
Definition update (c : Camera) : Camera :=
  set_moving c (dragging c || panning c).

(* Camera::processMouseMove *)
Definition processMouseMove (x y : dbl) (c : Camera) : Camera :=
  let dx := d2f (x - lastX c)%dbl in
  let dy := d2f (y - lastY c)%dbl in
  let c :=
    if dragging c && panning c then c
    else if dragging c && negb (panning c) then
      let az := (azimuth c + dx * orbitSpeed c)%flt in
      let el := (elevation c - dy * orbitSpeed c)%flt in
      set_orbit c az (std_clamp el (f_lit 1 (-2)) (PI - f_lit 1 (-2))%flt)
    else c in
  update (set_last c x y).

(* Camera::processMouseButton.  [cursor] is what glfwGetCursorPos
   reports for the window; the second component of the state is the
   global [g_gravity]. *)
Definition processMouseButton (button action mods : Z) (cursor : dbl * dbl)
    (s : Camera * bool) : Camera * bool :=
  let '(c, g_gravity) := s in
  let c :=
    if (button =? GLFW_MOUSE_BUTTON_LEFT)%Z || (button =? GLFW_MOUSE_BUTTON_MIDDLE)%Z then
      if (action =? GLFW_PRESS)%Z then
        set_last (set_buttons c true false) (fst cursor) (snd cursor)
      else if (action =? GLFW_RELEASE)%Z then set_buttons c false false
      else c
    else c in
  let g_gravity :=
    if (button =? GLFW_MOUSE_BUTTON_RIGHT)%Z then
      if (action =? GLFW_PRESS)%Z then true
      else if (action =? GLFW_RELEASE)%Z then false
      else g_gravity
    else g_gravity in
  (c, g_gravity).

(* Camera::processScroll *)
Definition processScroll (xoffset yoffset : dbl) (c : Camera) : Camera :=
  let r := d2f (f2d (radius c) - yoffset * zoomSpeed c)%dbl in
  update (set_radius c (glm_clamp r (minRadius c) (maxRadius c))).

(* Camera::processKey *)
Definition processKey (key scancode action mods : Z)
    (s : Camera * bool) : Camera * bool :=
  let '(c, g_gravity) := s in
  if (action =? GLFW_PRESS)%Z && (key =? GLFW_KEY_G)%Z then (c, negb g_gravity)
  else (c, g_gravity).

(** The four callbacks of [setupCameraCallbacks] as one event type. *)
Inductive Event :=
  | MouseMove (x y : dbl)
  | MouseButton (button action mods : Z) (cursor : dbl * dbl)
  | Scroll (xoffset yoffset : dbl)
  | Key (key scancode action mods : Z).

Definition handle (s : Camera * bool) (ev : Event) : Camera * bool :=
  match ev with
  | MouseMove x y => (processMouseMove x y (fst s), snd s)
  | MouseButton b a m cur => processMouseButton b a m cur s
  | Scroll xo yo => (processScroll xo yo (fst s), snd s)
  | Key k sc a m => processKey k sc a m s
  end.

(* The state after a run of events, from the initial globals
   [camera] and [g_gravity = false]. *)
Definition run (evs : list Event) : Camera * bool :=
  foldl handle (camera, false) evs.

(** ** Bodies ([struct BlackHole], [struct ObjectData], [objects]) *)

Record BlackHole := {
  bh_position : vec3;
  bh_mass : dbl;
  bh_r_s : dbl
}.

(* BlackHole::BlackHole(vec3 pos, float m) *)
Definition mkBlackHole (pos : vec3) (m : flt) : BlackHole :=
  let mass := f2d m in
  {| bh_position := pos; bh_mass := mass;
     bh_r_s := (d_lit 2 0 * G * mass / (C * C))%dbl |}.

(* BlackHole::Intercept *)
Definition Intercept (b : BlackHole) (px py pz : flt) : bool :=
  let dx := (f2d px - f2d (v3x (bh_position b)))%dbl in
  let dy := (f2d py - f2d (v3y (bh_position b)))%dbl in
  let dz := (f2d pz - f2d (v3z (bh_position b)))%dbl in
  let dist2 := (dx * dx + dy * dy + dz * dz)%dbl in
  (dist2 <? bh_r_s b * bh_r_s b)%dbl.

(* BlackHole SagA(vec3(0.0f), 8.54e36); *)
Definition SagA : BlackHole :=
  mkBlackHole (vec3_splat (f_lit 0 0)) (d2f (d_lit 854 34)).

Record ObjectData := {
  posRadius : vec4;
  color : vec4;
  mass : flt;
  velocity : vec3
}.

Definition mkObject (pr col : vec4) (m : flt) : ObjectData :=
  {| posRadius := pr; color := col; mass := m;
     velocity := vec3_splat (f_lit 0 0) |}.

(* std::vector<ObjectData> objects = { ... } *)
Definition objects : list ObjectData := [
  mkObject (Vec4 (f_lit 4 11) (f_lit 0 0) (f_lit 0 0) (f_lit 4 10))
           (Vec4 (f_of_int 1) (f_of_int 1) (f_of_int 0) (f_of_int 1))
           (f_lit 198892 25);
  mkObject (Vec4 (f_lit 0 0) (f_lit 0 0) (f_lit 4 11) (f_lit 4 10))
           (Vec4 (f_of_int 1) (f_of_int 0) (f_of_int 0) (f_of_int 1))
           (f_lit 198892 25);
  mkObject (Vec4 (f_lit 0 0) (f_lit 0 0) (f_lit 0 0) (d2f (bh_r_s SagA)))
           (Vec4 (f_of_int 0) (f_of_int 0) (f_of_int 0) (f_of_int 1))
           (d2f (bh_mass SagA))
].

(** ** The gravity block of [main] *)

(* One pass of the inner loop body for a pair [obj], [obj2] of distinct
   objects: the running [totalAcc] after the pull of [obj2] on [obj]. *)
Definition pull (obj obj2 : ObjectData) (totalAcc : vec3) : vec3 :=
  let delta := vec3_sub (vec3_of_vec4 (posRadius obj2)) (vec3_of_vec4 (posRadius obj)) in
  let distance := length3 delta in
  if (distance >? f_lit 0 0)%flt then
    let direction := vec3_div delta distance in
    let force :=
      ((G * f2d (mass obj) * f2d (mass obj2)) / f2d (distance * distance)%flt)%dbl in
    vec3_add totalAcc (vec3_scale direction (d2f (force / f2d (mass obj))%dbl))
  else totalAcc.

(* The inner loop over [objects]; [j] is the index of the head of
   [rest], and the element at index [i] is [obj] itself
   ([&obj == &obj2]), which is skipped. *)
Fixpoint accumulate (obj : ObjectData) (i j : nat) (rest : list ObjectData)
    (totalAcc : vec3) : vec3 :=
  match rest with
  | [] => totalAcc
  | obj2 :: rest' =>
      accumulate obj i (S j) rest'
        (if (i =? j)%nat then totalAcc else pull obj obj2 totalAcc)
  end.

(* What the outer loop body writes back into [obj]. *)
Definition advance (obj : ObjectData) (totalAcc : vec3) : ObjectData :=
  let velocity' := vec3_add (velocity obj) totalAcc in
  {| posRadius := vec4_add (posRadius obj) (vec4_of_vec3 velocity' (f_lit 0 0));
     color := color obj; mass := mass obj; velocity := velocity' |}.

(* The outer loop body for the object at index [i], on the vector as
   it stands when the loop reaches [i]. *)
Definition integrate (objs : list ObjectData) (i : nat) : list ObjectData :=
  match objs !! i with
  | Some obj =>
      let totalAcc := accumulate obj i 0%nat objs (vec3_splat (f_lit 0 0)) in
      <[i := advance obj totalAcc]> objs
  | None => objs
  end.

(* for (auto& obj : objects) { ... } *)
Definition gravity_step (objs : list ObjectData) : list ObjectData :=
  foldl integrate objs (seq 0%nat (length objs)).

(* if (g_gravity) { ... } *)
Definition simulate (g_gravity : bool) (objs : list ObjectData) : list ObjectData :=
  if g_gravity then gravity_step objs else objs.

(* [n] frames of the main loop with the flag held at [g_gravity]. *)
Definition frames (g_gravity : bool) (n : nat) (objs : list ObjectData) : list ObjectData :=
  Nat.iter n (simulate g_gravity) objs.

(** ** The curvature grid ([Engine::generateGrid]) *)

(* constexpr int gridSize = 25; constexpr float spacing = 1e10f; *)
Definition gridSize : Z := 25.
Definition spacing : flt := f_lit 1 10.

(* The world coordinate of grid column (or row) [x] on a grid of
   [n] cells per side: (x - gridSize / 2) * spacing. *)
Definition world (n x : Z) : flt := (f_of_int (x - n `quot` 2)%Z * spacing)%flt.

(* 2.0 * G * obj.mass / (C * C) *)
Definition schwarzschild (obj : ObjectData) : dbl :=
  (d_lit 2 0 * G * f2d (mass obj) / (C * C))%dbl.

(* The planar distance from the grid point to the object. *)
Definition planar_dist (obj : ObjectData) (worldX worldZ : flt) : dbl :=
  let objPos := vec3_of_vec4 (posRadius obj) in
  let dx := f2d (worldX - v3x objPos)%flt in
  let dz := f2d (worldZ - v3z objPos)%flt in
  d_sqrt (dx * dx + dz * dz)%dbl.

(* The two arms of the warp, as the term added to [y]. *)
Definition outside (r_s dist : dbl) : flt :=
  let deltaY := (d_lit 2 0 * d_sqrt (r_s * (dist - r_s)))%dbl in
  (d2f deltaY - f_lit 3 10)%flt.
Definition saturated (r_s : dbl) : flt :=
  (f_lit 2 0 * d2f (d_sqrt (r_s * r_s)%dbl) - f_lit 3 10)%flt.

(* What one object adds to [y] at a grid point. *)
Definition contribution (obj : ObjectData) (worldX worldZ : flt) : flt :=
  let r_s := schwarzschild obj in
  let dist := planar_dist obj worldX worldZ in
  if (dist >? r_s)%dbl then outside r_s dist else saturated r_s.

(* The body of the two vertex loops. *)
Definition vertex (n : Z) (objs : list ObjectData) (x z : Z) : vec3 :=
  let worldX := world n x in
  let worldZ := world n z in
  let y := foldl (fun y obj => (y + contribution obj worldX worldZ)%flt)
                 (f_lit 0 0) objs in
  Vec3 worldX y worldZ.

Definition grid_vertices (n : Z) (objs : list ObjectData) : list vec3 :=
  z ← seqZ 0 (n + 1)%Z; x ← seqZ 0 (n + 1)%Z; [vertex n objs x z].

(* The index loops: two line segments per cell. *)
Definition cell_indices (n x z : Z) : list Z :=
  let i := (z * (n + 1) + x)%Z in
  [i; (i + 1)%Z; i; (i + n + 1)%Z].

Definition grid_indices (n : Z) : list Z :=
  z ← seqZ 0 n; x ← seqZ 0 n; cell_indices n x z.

(* The CPU-side result of generateGrid: the two vectors handed to
   glBufferData, and gridIndexCount. *)
Definition generateGrid (objs : list ObjectData) : list vec3 * list Z * Z :=
  let vertices := grid_vertices gridSize objs in
  let indices := grid_indices gridSize in
  (vertices, indices, Z.of_nat (length indices)).

(* GL_LINES: glDrawElements reads the index buffer two entries at a
   time, one segment each. *)
Fixpoint segments (indices : list Z) : list (Z * Z) :=
  match indices with
  | a :: b :: rest => (a, b) :: segments rest
  | _ => []
  end.

(** ** The compute dispatch ([struct Engine]) *)

Record Engine := {
  WIDTH : Z;
  HEIGHT : Z;
  COMPUTE_WIDTH : Z;
  COMPUTE_HEIGHT : Z;
  width : flt;
  height : flt
}.

(* The default member initialisers; [Engine engine;] *)
Definition engine : Engine := {|
  WIDTH := 800; HEIGHT := 600;
  COMPUTE_WIDTH := 200; COMPUTE_HEIGHT := 150;
  width := f_lit 100000000000 0; height := f_lit 75000000000 0
|}.

(* Engine::dispatchCompute, the target compute resolution (cw, ch)
   that is passed to glTexImage2D. *)
Definition dispatchCompute (e : Engine) (cam : Camera) : Z * Z :=
  let cw := if moving cam then COMPUTE_WIDTH e else 200 in
  let ch := if moving cam then COMPUTE_HEIGHT e else 150 in
  (cw, ch).

(* The local [struct UBOData] of uploadObjectsUBO. *)
Record UBOData := {
  numObjects : Z;
  ubo_posRadius : list vec4;
  ubo_color : list vec4;
  ubo_mass : list flt
}.

(* The loop body: data.posRadius[i] = objs[i].posRadius; ... *)
Definition pack (objs : list ObjectData) (data : UBOData) (i : nat) : UBOData :=
  match objs !! i with
  | Some obj =>
      {| numObjects := numObjects data;
         ubo_posRadius := <[i := posRadius obj]> (ubo_posRadius data);
         ubo_color := <[i := color obj]> (ubo_color data);
         ubo_mass := <[i := mass obj]> (ubo_mass data) |}
  | None => data
  end.

(* Engine::uploadObjectsUBO, up to the glBufferSubData call.  [data]
   is the local as declared, before anything is written to it: its
   three arrays hold whatever the stack held. *)
Definition uploadObjectsUBO (objs : list ObjectData) (data : UBOData) : UBOData :=
  let count := Nat.min (length objs) 16%nat in
  let data := {| numObjects := Z.of_nat count;
                 ubo_posRadius := ubo_posRadius data;
                 ubo_color := ubo_color data;
                 ubo_mass := ubo_mass data |} in
  foldl (pack objs) data (seq 0%nat count).

(** ** The camera and disk blocks ([uploadCameraUBO], [uploadDiskUBO]) *)

(* glm::cross *)
Definition cross (x y : vec3) : vec3 :=
  Vec3 (v3y x * v3z y - v3y y * v3z x)%flt
       (v3z x * v3x y - v3z y * v3x x)%flt
       (v3x x * v3y y - v3x y * v3y x)%flt.

(* glm::inversesqrt and glm::normalize *)
Definition inversesqrt (x : flt) : flt := (f_lit 1 0 / f_sqrt x)%flt.
Definition normalize (v : vec3) : vec3 := vec3_scale v (inversesqrt (dot v v)).

(* glm::radians *)
Definition radians (degrees : flt) : flt :=
  (degrees * d2f (d_lit 1745329251994329576923690768489 (-32)))%flt.

(* The local [struct UBOData] of uploadCameraUBO, without its padding. *)
Record CameraUBOData := {
  ubo_pos : vec3;
  ubo_right : vec3;
  ubo_up : vec3;
  ubo_forward : vec3;
  ubo_tanHalfFov : flt;
  ubo_aspect : flt;
  ubo_moving : bool
}.

(* Engine::uploadCameraUBO, up to the glBufferSubData call. *)
Definition uploadCameraUBO {T : Trig A} {Tn : Tangent A}
    (e : Engine) (cam : Camera) : CameraUBOData :=
  let fwd := normalize (vec3_sub (target cam) (position cam)) in
  let up := Vec3 (f_of_int 0) (f_of_int 1) (f_of_int 0) in
  let right := normalize (cross fwd up) in
  let up := cross right fwd in
  {| ubo_pos := position cam;
     ubo_right := right;
     ubo_up := up;
     ubo_forward := fwd;
     ubo_tanHalfFov := f_tan (radians (f_lit 60 0 * f_lit 5 (-1))%flt);
     ubo_aspect := (f_of_int (WIDTH e) / f_of_int (HEIGHT e))%flt;
     ubo_moving := dragging cam || panning cam |}.

(* The local [struct DiskData] of uploadDiskUBO. *)
Record DiskData := {
  innerRadius : flt;
  outerRadius : flt;
  numRays : flt;
  thickness : flt
}.

(* Engine::uploadDiskUBO, up to the glBufferSubData call; the global
   [SagA] it reads is passed in. *)
Definition uploadDiskUBO (sagA : BlackHole) : DiskData :=
  {| innerRadius := d2f (bh_r_s sagA * f2d (f_lit 22 (-1)))%dbl;
     outerRadius := d2f (bh_r_s sagA * f2d (f_lit 52 (-1)))%dbl;
     numRays := f_lit 2 0;
     thickness := f_lit 1 9 |}.

(* Engine::dispatchCompute, the work-group counts (groupsX, groupsY)
   passed to glDispatchCompute. *)
Definition dispatchGroups {Rd : Rounding A} (e : Engine) (cam : Camera)
    : option Z * option Z :=
  let '(cw, ch) := dispatchCompute e cam in
  let workGroupSize := f_lit 16 0 in
  (f_to_uint (f_ceil (f_of_int cw / workGroupSize)%flt),
   f_to_uint (f_ceil (f_of_int ch / workGroupSize)%flt)).

End Program.

(** ** The IEEE 754 instance: binary32 and binary64 *)

(* An integer as an unrounded floating-point datum. *)
Definition ieee_raw (n : Z) : spec_float :=
  match n with
  | Z0 => S754_zero false
  | Zpos p => S754_finite false p 0
  | Zneg p => S754_finite true p 0
  end.

(* The decimal m·10^e rounded to nearest, ties to even. *)
Definition ieee_lit (prec emax m e : Z) : spec_float :=
  if 0 <=? e then binary_normalize prec emax (m * 10 ^ e) 0 false
  else SFdiv prec emax (ieee_raw m) (ieee_raw (10 ^ (- e))).

(* Conversion to the format (prec, emax): exact when widening,
   rounding when narrowing. *)
Definition ieee_convert (prec emax : Z) (x : spec_float) : spec_float :=
  match x with
  | S754_finite s m e => binary_round prec emax s m e
  | _ => x
  end.

Definition IEEE : Arith := {|
  flt := spec_float;
  dbl := spec_float;
  f_lit := ieee_lit 24 128;
  d_lit := ieee_lit 53 1024;
  f_pi := S754_finite false 13176795 (-22);     (* 0x40490FDB *)
  f_of_int := fun n => binary_normalize 24 128 n 0 false;
  f2d := ieee_convert 53 1024;
  d2f := ieee_convert 24 128;
  f_add := SFadd 24 128;
  f_sub := SFsub 24 128;
  f_mul := SFmul 24 128;
  f_div := SFdiv 24 128;
  f_sqrt := SFsqrt 24 128;
  f_ltb := SFltb;
  d_add := SFadd 53 1024;
  d_sub := SFsub 53 1024;
  d_mul := SFmul 53 1024;
  d_div := SFdiv 53 1024;
  d_sqrt := SFsqrt 53 1024;
  d_ltb := SFltb
|}.

(** ** The ideal instance: real numbers, no rounding *)

Definition ideal_lit (m e : Z) : R :=
  if 0 <=? e then IZR (m * 10 ^ e) else (IZR m / IZR (10 ^ (- e)))%R.

Definition ideal_ltb (a b : R) : bool := if Rlt_dec a b then true else false.

Definition Ideal : Arith := {|
  flt := R;
  dbl := R;
  f_lit := ideal_lit;
  d_lit := ideal_lit;
  f_pi := Rtrigo1.PI;
  f_of_int := IZR;
  f2d := fun x => x;
  d2f := fun x => x;
  f_add := Rplus;
  f_sub := Rminus;
  f_mul := Rmult;
  f_div := Rdiv;
  f_sqrt := sqrt;
  f_ltb := ideal_ltb;
  d_add := Rplus;
  d_sub := Rminus;
  d_mul := Rmult;
  d_div := Rdiv;
  d_sqrt := sqrt;
  d_ltb := ideal_ltb
|}.

Definition Ideal_trig : Trig Ideal := Build_Trig Ideal sin cos.

(** ** [std::ceil] and the cast to GLuint in binary32 *)

(* std::ceil on a binary datum: the least integer not below it. *)
Definition ieee_ceil (prec emax : Z) (x : spec_float) : spec_float :=
  match x with
  | S754_finite s m e =>
      if 0 <=? e then x
      else
        let q := Zpos m / 2 ^ (- e) in
        let r := Zpos m mod 2 ^ (- e) in
        let n := if s then - q else if r =? 0 then q else q + 1 in
        binary_normalize prec emax n 0 s
  | _ => x
  end.

(* static_cast<GLuint>: truncation towards zero; undefined (None) for
   a NaN, an infinity, and a value whose truncation is outside
   0 .. 2^32 - 1. *)
Definition ieee_to_uint (x : spec_float) : option Z :=
  match x with
  | S754_zero _ => Some 0
  | S754_finite s m e =>
      let t := if 0 <=? e then Zpos m * 2 ^ e else Zpos m / 2 ^ (- e) in
      if s then (if t =? 0 then Some 0 else None)
      else if t <? 2 ^ 32 then Some t else None
  | _ => None
  end.

Definition IEEE_rounding : Rounding IEEE :=
  Build_Rounding IEEE (ieee_ceil 24 128) ieee_to_uint.

(** * Vocabulary of the statements *)

Section Vocabulary.
Context {A : Arith}.

(** The vector as it stands when the outer loop reaches index [i]:
    the objects before [i] have been advanced, the rest have not. *)
Definition reached (objs : list ObjectData) (i : nat) : list ObjectData :=
  foldl integrate objs (seq 0 i).

(** The three arrays of the objects block have 16 slots each. *)
Definition ubo_slots (data : UBOData) : Prop :=
  length (ubo_posRadius data) = 16%nat /\
  length (ubo_color data) = 16%nat /\
  length (ubo_mass data) = 16%nat.

(** The two segments of a cell: to the right neighbour and to the
    neighbour below. *)
Definition cell_segments (n x z : Z) : list (Z * Z) :=
  let i := z * (n + 1) + x in
  [(i, i + 1); (i, i + n + 1)].

(** Every segment joins a vertex to its right neighbour or to the one
    below it. *)
Definition joins_neighbours (n : Z) (vertices : list vec3) (objs : list ObjectData)
    (s : Z * Z) : Prop :=
  exists x z, 0 <= x < n /\ 0 <= z < n /\
    fst s = z * (n + 1) + x /\
    vertices !! Z.to_nat (fst s) = Some (vertex n objs x z) /\
    ((snd s = fst s + 1 /\
      vertices !! Z.to_nat (snd s) = Some (vertex n objs (x + 1) z)) \/
     (snd s = fst s + n + 1 /\
      vertices !! Z.to_nat (snd s) = Some (vertex n objs x (z + 1)))).

(* The third entry of [objects]. *)
Definition attractor : ObjectData :=
  mkObject (Vec4 (f_lit 0 0) (f_lit 0 0) (f_lit 0 0) (d2f (bh_r_s SagA)))
           (Vec4 (f_of_int 0) (f_of_int 0) (f_of_int 0) (f_of_int 1))
           (d2f (bh_mass SagA)).

(** The events that can change [g_gravity]: the right button and a
    press of G. *)
Definition touches_gravity (ev : Event) : bool :=
  match ev with
  | MouseButton b _ _ _ => (b =? GLFW_MOUSE_BUTTON_RIGHT)
  | Key k _ a _ => (a =? GLFW_PRESS) && (k =? GLFW_KEY_G)
  | _ => false
  end.

(** The events that can start a drag: a press of the left or of the
    middle button. *)
Definition starts_drag (ev : Event) : bool :=
  match ev with
  | MouseButton b a _ _ =>
      ((b =? GLFW_MOUSE_BUTTON_LEFT) || (b =? GLFW_MOUSE_BUTTON_MIDDLE))
      && (a =? GLFW_PRESS)
  | _ => false
  end.

(** What no handler writes to. *)
Definition settings_kept (c : Camera) : Prop :=
  target c = target camera /\ minRadius c = minRadius camera /\
  maxRadius c = maxRadius camera /\ orbitSpeed c = orbitSpeed camera /\
  panSpeed c = panSpeed camera /\ zoomSpeed c = zoomSpeed camera /\
  panning c = false.

End Vocabulary.

(** Inputs used below, in IEEE arithmetic. *)

Section IEEE_inputs.
Local Existing Instance IEEE.

(** Two bodies of mass 1e10 at (-1, 0, 0) and (1, 0, 0), at rest. *)
Definition twin (x : Z) : ObjectData :=
  mkObject (Vec4 (f_of_int x) (f_lit 0 0) (f_lit 0 0) (f_lit 1 0))
           (Vec4 (f_of_int 1) (f_of_int 1) (f_of_int 1) (f_of_int 1))
           (f_lit 1 10).

(** Two bodies of one solar mass on the x axis, at rest, as far from
    the origin as the program's own bodies. *)
Definition sun (x : Z) : ObjectData :=
  mkObject (Vec4 (f_lit x 11) (f_lit 0 0) (f_lit 0 0) (f_lit 4 10))
           (Vec4 (f_of_int 1) (f_of_int 1) (f_of_int 0) (f_of_int 1))
           (f_lit 198892 25).

(** Twenty bodies, told apart by their mass, and a block whose slots
    all hold the same marker. *)
Definition twenty : list ObjectData :=
  (fun k => mkObject (Vec4 (f_of_int k) (f_lit 0 0) (f_lit 0 0) (f_lit 1 0))
                     (Vec4 (f_of_int 1) (f_of_int 1) (f_of_int 1) (f_of_int 1))
                     (f_of_int (100 + k))) <$> seqZ 0 20.

Definition stale : UBOData :=
  let v := Vec4 (f_of_int 7) (f_of_int 7) (f_of_int 7) (f_of_int 7) in
  {| numObjects := 7; ubo_posRadius := replicate 16 v;
     ubo_color := replicate 16 v; ubo_mass := replicate 16 (f_of_int 7) |}.

(** NaN and finiteness of a binary datum. *)
Definition is_nan (x : spec_float) : bool :=
  match x with S754_nan => true | _ => false end.
Definition is_finite (x : spec_float) : bool :=
  match x with S754_zero _ | S754_finite _ _ _ => true | _ => false end.

(* The coordinates and the scroll offset GLFW hands to the callbacks
   are finite doubles ([xoffset] is not read by the handler). *)
Definition event_finite (ev : @Event IEEE) : bool :=
  match ev with
  | MouseMove x y => is_finite x && is_finite y
  | MouseButton _ _ _ cursor => is_finite (fst cursor) && is_finite (snd cursor)
  | Scroll _ yoffset => is_finite yoffset
  | Key _ _ _ _ => true
  end.

(** A left-button press at (0, 0) followed by a drag 300 pixels down. *)
Definition drag_down : list Event :=
  [MouseButton GLFW_MOUSE_BUTTON_LEFT GLFW_PRESS 0 (d_lit 0 0, d_lit 0 0);
   MouseMove (d_lit 10 0) (d_lit 300 0)].

(** The same press followed by a move whose ordinate is a NaN. *)
Definition drag_nan : list Event :=
  [MouseButton GLFW_MOUSE_BUTTON_LEFT GLFW_PRESS 0 (d_lit 0 0, d_lit 0 0);
   MouseMove (d_lit 10 0) S754_nan].

(** A zero of either sign. *)
Definition is_zero (x : spec_float) : bool :=
  match x with S754_zero _ => true | _ => false end.

(** The mantissa of a finite datum has at most [prec] binary digits. *)
Definition mantissa_fits (prec : Z) (x : spec_float) : bool :=
  match x with
  | S754_finite _ m _ => Zpos (digits2_pos m) <=? prec
  | _ => true
  end.

(** An infinity, or a finite datum m·2^e other than zero with
    digits(m) + e >= k, that is, of magnitude at least 2^(k-1). *)
Definition at_least (k : Z) (x : spec_float) : bool :=
  match x with
  | S754_infinity _ => true
  | S754_finite _ m e => k <=? Zpos (digits2_pos m) + e
  | _ => false
  end.

(** What the handlers keep true of the camera when the coordinates
    they are given are finite. *)
Record camera_fp_ok (c : Camera) : Prop := {
  fp_elevation_lo : SFleb (f_lit 1 (-2)) (elevation c) = true;
  fp_elevation_hi : SFleb (elevation c) (PI - f_lit 1 (-2))%flt = true;
  fp_orbitSpeed : orbitSpeed c = f_lit 1 (-2);
  fp_lastX : is_finite (lastX c) = true;
  fp_lastY : is_finite (lastY c) = true;
  fp_radius_lo : SFleb (f_lit 1 10) (radius c) = true;
  fp_radius_hi : SFleb (radius c) (f_lit 1 12) = true;
  fp_radius_fits : mantissa_fits 24 (radius c) = true;
  fp_minRadius : minRadius c = f_lit 1 10;
  fp_maxRadius : maxRadius c = f_lit 1 12;
  fp_zoomSpeed : zoomSpeed c = f2d (f_lit 25 9);
  fp_target : target c = vec3_splat (f_lit 0 0)
}.

(** A sine and a cosine in binary32 by their Taylor polynomials, to
    x^13 and x^12, as an example of what a C library may return. *)
Definition taylor_sin (x : spec_float) : spec_float :=
  let one := f_lit 1 0 in
  let x2 := (x * x)%flt in
  (x * (one - x2 / f_lit 6 0 * (one - x2 / f_lit 20 0 * (one - x2 / f_lit 42 0 *
       (one - x2 / f_lit 72 0 * (one - x2 / f_lit 110 0 *
       (one - x2 / f_lit 156 0)))))))%flt.
Definition taylor_cos (x : spec_float) : spec_float :=
  let one := f_lit 1 0 in
  let x2 := (x * x)%flt in
  (one - x2 / f_lit 2 0 * (one - x2 / f_lit 12 0 * (one - x2 / f_lit 30 0 *
       (one - x2 / f_lit 56 0 * (one - x2 / f_lit 90 0 *
       (one - x2 / f_lit 132 0))))))%flt.
Definition taylor_trig : Trig IEEE := Build_Trig IEEE taylor_sin taylor_cos.

(** A body whose x and z coordinates are both above zero. *)
Definition off_origin (obj : ObjectData) : bool :=
  (v4x (posRadius obj) >? f_lit 0 0)%flt && (v4z (posRadius obj) >? f_lit 0 0)%flt.

(** A datum that is a zero or a NaN. *)
Definition is_zero_or_nan (x : spec_float) : bool :=
  match x with S754_zero _ | S754_nan => true | _ => false end.

(** A body of mass zero at the origin. *)
Definition dust : ObjectData :=
  mkObject (Vec4 (f_lit 0 0) (f_lit 0 0) (f_lit 0 0) (f_lit 1 0))
           (Vec4 (f_of_int 1) (f_of_int 1) (f_of_int 1) (f_of_int 1))
           (f_lit 0 0).

(** Mouse moves and a scroll with no button held. *)
Definition hover : list Event :=
  [MouseMove (d_lit 10 0) (d_lit 300 0); Scroll (d_lit 0 0) (d_lit 1 0);
   MouseMove (d_lit 20 0) (d_lit 100 0)].

End IEEE_inputs.

(** The camera invariant and an input, in ideal arithmetic. *)

Section Ideal_vocabulary.
Local Existing Instance Ideal.
Local Open Scope R_scope.

(** What the input handlers keep true of the camera. *)
Record camera_ok (c : Camera) : Prop := {
  ok_elevation : 1 / 100 <= elevation c <= Rtrigo1.PI - 1 / 100;
  ok_radius : 10000000000 <= radius c <= 1000000000000;
  ok_minRadius : minRadius c = 10000000000;
  ok_maxRadius : maxRadius c = 1000000000000;
  ok_target : target c = Vec3 0 0 0
}.

(** A body of one solar mass placed one Schwarzschild radius away from
    the grid point at the world origin (column 12, row 12). *)
Definition sun_mass : R := f_lit 198892 25.
Definition sun_r_s : R := d_lit 2 0 * G * sun_mass / (C * C).
Definition horizon_body : ObjectData :=
  mkObject (Vec4 sun_r_s 0 0 (f_lit 4 10))
           (Vec4 1 1 0 1) sun_mass.

(** A body of mass 1 at the origin. *)
Definition pebble : ObjectData :=
  mkObject (Vec4 0 0 0 1) (Vec4 1 1 1 1) 1.

End Ideal_vocabulary.

(** * Properties *)

(** ** Input handling and resolution choice, at any arithmetic *)

Section Input.
Context {A : Arith}.

Lemma moving_set_moving (c : Camera) (m : bool) : moving (set_moving c m) = m.
Proof. reflexivity. Qed.

(** [update] establishes [moving = dragging || panning]. *)
Lemma update_moving (c : Camera) :
  moving (update c) = dragging (update c) || panning (update c).
Proof. reflexivity. Qed.

(** The two handlers that end in [update()] leave the flag in step
    with the two button flags. *)
Lemma processMouseMove_moving (x y : dbl) (c : Camera) :
  let c' := processMouseMove x y c in
  moving c' = dragging c' || panning c'.
Proof. apply update_moving. Qed.

Lemma processScroll_moving (xo yo : dbl) (c : Camera) :
  let c' := processScroll xo yo c in
  moving c' = dragging c' || panning c'.
Proof. apply update_moving. Qed.

(** [processKey] touches none of the three flags. *)
Lemma processKey_camera (key scancode action mods : Z) (c : Camera) (g : bool) :
  fst (processKey key scancode action mods (c, g)) = c.
Proof. unfold processKey. by destruct (_ && _). Qed.

(** C1.  [dispatchCompute] chooses between two pairs on [cam.moving],
    but on the engine as declared both arms are 200 x 150: a moving
    camera gets (COMPUTE_WIDTH, COMPUTE_HEIGHT), the very pair an idle
    camera gets, and neither side is smaller. *)
Theorem dispatchCompute_moving_not_reduced (cam : Camera) :
  let moving_dims := dispatchCompute engine (set_moving cam true) in
  let idle_dims := dispatchCompute engine (set_moving cam false) in
  moving_dims = (COMPUTE_WIDTH engine, COMPUTE_HEIGHT engine) /\
  idle_dims = (200, 150) /\
  moving_dims = idle_dims /\
  ~ (fst moving_dims < fst idle_dims) /\
  ~ (snd moving_dims < snd idle_dims).
Proof. cbn. repeat split; lia. Qed.

(** C4.  [processMouseButton] sets [dragging] and returns without
    calling [update()]: after a left press on the initial camera
    [dragging] is true while [moving] is still false. *)
Theorem processMouseButton_leaves_moving_stale (cursor : dbl * dbl) (mods : Z) (g : bool) :
  let c' := fst (processMouseButton GLFW_MOUSE_BUTTON_LEFT GLFW_PRESS mods cursor (camera, g)) in
  dragging c' = true /\ panning c' = false /\ moving c' = false /\
  moving c' <> (dragging c' || panning c').
Proof. cbn. repeat split; discriminate. Qed.

(** The same omission at the end of a drag: once a move has set
    [moving], the release clears [dragging] and leaves [moving] set. *)
Lemma release_leaves_moving_set (x y : dbl) (cursor : dbl * dbl) (mods : Z) (g : bool) :
  let pressed := processMouseButton GLFW_MOUSE_BUTTON_LEFT GLFW_PRESS mods cursor (camera, g) in
  let dragged := processMouseMove x y (fst pressed) in
  let c' := fst (processMouseButton GLFW_MOUSE_BUTTON_LEFT GLFW_RELEASE mods cursor
                   (dragged, snd pressed)) in
  moving dragged = true /\
  dragging c' = false /\ panning c' = false /\ moving c' = true.
Proof. by cbn. Qed.

(** C5 (as amended).  The right button is a hold switch: a press sets
    [g_gravity], whatever it was, and the release clears it; neither
    touches the camera.  A press of G inverts the flag. *)
Theorem right_button_holds_key_toggles (c : Camera) (g : bool)
    (mods scancode : Z) (cursor : dbl * dbl) :
  processMouseButton GLFW_MOUSE_BUTTON_RIGHT GLFW_PRESS mods cursor (c, g) = (c, true) /\
  processMouseButton GLFW_MOUSE_BUTTON_RIGHT GLFW_RELEASE mods cursor (c, g) = (c, false) /\
  processKey GLFW_KEY_G scancode GLFW_PRESS mods (c, g) = (c, negb g).
Proof. by cbn. Qed.

End Input.

(** C5, as stated, fails: with the flag already on, a right press
    leaves it on instead of turning it off, and the release that
    follows turns it off instead of leaving it alone. *)
Lemma right_button_press_is_not_a_toggle :
  let s := (@camera IEEE, true) in
  let cursor := (@d_lit IEEE 0 0, @d_lit IEEE 0 0) in
  snd (processMouseButton GLFW_MOUSE_BUTTON_RIGHT GLFW_PRESS 0 cursor s) <> negb (snd s) /\
  snd (processMouseButton GLFW_MOUSE_BUTTON_RIGHT GLFW_RELEASE 0 cursor s) <> snd s.
Proof. cbn. split; discriminate. Qed.

(** ** The integrator loop and the objects block, at any arithmetic *)

Section Bodies.
Context {A : Arith}.
Local Open Scope nat_scope.

Lemma length_integrate (objs : list ObjectData) (i : nat) :
  length (integrate objs i) = length objs.
Proof.
  unfold integrate. destruct (objs !! i); [apply length_insert | done].
Qed.

Lemma length_foldl_integrate (l : list nat) (objs : list ObjectData) :
  length (foldl integrate objs l) = length objs.
Proof.
  revert objs. induction l as [|i l IH]; intros objs; simpl; [done|].
  by rewrite IH, length_integrate.
Qed.

Lemma length_gravity_step (objs : list ObjectData) :
  length (gravity_step objs) = length objs.
Proof. apply length_foldl_integrate. Qed.

(** The loop body for index [i] writes to slot [i] only. *)
Lemma integrate_lookup_ne (objs : list ObjectData) (i j : nat) :
  i <> j -> integrate objs i !! j = objs !! j.
Proof.
  intros Hij. unfold integrate.
  destruct (objs !! i); [by apply list_lookup_insert_ne | done].
Qed.

Lemma foldl_integrate_lookup_notin (l : list nat) (objs : list ObjectData) (j : nat) :
  j ∉ l -> foldl integrate objs l !! j = objs !! j.
Proof.
  revert objs. induction l as [|i l IH]; intros objs Hj; simpl; [done|].
  apply not_elem_of_cons in Hj as [Hji Hjl].
  rewrite IH by done. apply integrate_lookup_ne. congruence.
Qed.

Lemma reached_lookup_ge (objs : list ObjectData) (i j : nat) :
  i <= j -> reached objs i !! j = objs !! j.
Proof.
  intros Hij. apply foldl_integrate_lookup_notin.
  rewrite elem_of_seq. lia.
Qed.

(** What one step does to the object at index [i]: it is advanced by
    the pull, summed over the whole vector as it stands at that
    moment, of every other object. *)
Lemma gravity_step_lookup (objs : list ObjectData) (i : nat) (obj : ObjectData) :
  objs !! i = Some obj ->
  gravity_step objs !! i =
    Some (advance obj (accumulate obj i 0 (reached objs i) (vec3_splat (f_lit 0 0)))).
Proof.
  intros Hi. pose proof (lookup_lt_Some _ _ _ Hi) as Hlt.
  unfold gravity_step.
  replace (length objs) with (i + (1 + (length objs - i - 1))) by lia.
  rewrite !seq_app, !foldl_app. fold (reached objs i). simpl seq.
  rewrite foldl_integrate_lookup_notin by (rewrite elem_of_seq; lia).
  simpl. unfold integrate at 1.
  rewrite reached_lookup_ge, Hi by done.
  apply list_lookup_insert_eq.
  unfold reached. by rewrite length_foldl_integrate.
Qed.

(** Two bodies: the second is pulled towards the first as already
    advanced. *)
Lemma gravity_step_pair (b1 b2 : ObjectData) :
  let zero := vec3_splat (f_lit 0 0) in
  let b1' := advance b1 (pull b1 b2 zero) in
  gravity_step [b1; b2] = [b1'; advance b2 (pull b2 b1' zero)].
Proof. reflexivity. Qed.

(** The inner loop, which skips the object's own index, sums the
    pulls of the list with that index taken out. *)
Lemma accumulate_others (obj : ObjectData) (i j : nat) (rest : list ObjectData)
    (totalAcc : vec3) :
  accumulate obj i j rest totalAcc =
  foldl (fun acc obj2 => pull obj obj2 acc) totalAcc
        (if decide (j <= i) then delete (i - j) rest else rest).
Proof.
  revert j totalAcc. induction rest as [|obj2 rest IH]; intros j totalAcc.
  { by destruct (decide (j <= i)). }
  cbn [accumulate]. rewrite IH.
  destruct (decide (j <= i)) as [Hle|Hgt].
  - destruct (decide (i = j)) as [->|Hne].
    + rewrite Nat.eqb_refl, Nat.sub_diag.
      destruct (decide (S j <= j)); [lia|]. done.
    + rewrite (proj2 (Nat.eqb_neq i j)) by done.
      destruct (decide (S j <= i)); [|lia].
      replace (i - j) with (S (i - S j)) by lia. done.
  - rewrite (proj2 (Nat.eqb_neq i j)) by lia.
    destruct (decide (S j <= i)); [lia|]. done.
Qed.

(** When the outer loop reaches index [i], the objects before [i] are
    those of the finished step and the others are still the old ones. *)
Lemma reached_take_drop (objs : list ObjectData) (i : nat) :
  i <= length objs ->
  reached objs i = take i (gravity_step objs) ++ drop i objs.
Proof.
  intros Hi. apply list_eq. intros j.
  assert (Hlen : length (take i (gravity_step objs)) = i).
  { rewrite length_take, length_gravity_step. lia. }
  destruct (decide (j < i)) as [Hlt|Hge].
  - rewrite lookup_app_l by lia. rewrite lookup_take_lt by done.
    unfold gravity_step.
    replace (length objs) with (i + (length objs - i)) by lia.
    rewrite seq_app, foldl_app. fold (reached objs i).
    symmetry. apply foldl_integrate_lookup_notin. rewrite elem_of_seq. lia.
  - rewrite lookup_app_r by lia. rewrite Hlen, lookup_drop.
    replace (i + (j - i)) with j by lia. apply reached_lookup_ge. lia.
Qed.

(** One step, written out for the object at index [i]: its velocity
    gains the pulls of all the other objects of the vector, those
    before it as already moved by this step, and its position gains
    the new velocity. *)
Lemma gravity_step_explicit (objs : list ObjectData) (i : nat) (obj : ObjectData) :
  objs !! i = Some obj ->
  let objs' := gravity_step objs in
  let others := delete i (take i objs' ++ drop i objs) in
  let velocity' :=
    vec3_add (velocity obj)
      (foldl (fun acc obj2 => pull obj obj2 acc) (vec3_splat (f_lit 0 0)) others) in
  objs' !! i =
    Some {| posRadius := vec4_add (posRadius obj) (vec4_of_vec3 velocity' (f_lit 0 0));
            color := color obj; mass := mass obj; velocity := velocity' |} /\
  length others = length objs - 1.
Proof.
  intros Hi objs' others velocity'.
  pose proof (lookup_lt_Some _ _ _ Hi) as Hlt.
  assert (Hseen : reached objs i = take i objs' ++ drop i objs)
    by (apply reached_take_drop; lia).
  split.
  - subst objs'. rewrite (gravity_step_lookup objs i obj Hi).
    rewrite accumulate_others. destruct (decide (0 <= i)); [|lia].
    rewrite Nat.sub_0_r, Hseen. reflexivity.
  - subst others. rewrite <- Hseen. rewrite length_delete.
    + unfold reached. by rewrite length_foldl_integrate.
    + apply lookup_lt_is_Some_2. unfold reached.
      rewrite length_foldl_integrate. lia.
Qed.

(** With the flag clear nothing moves, however many frames pass. *)
Lemma frames_gravity_off (n : nat) (objs : list ObjectData) :
  frames false n objs = objs.
Proof. unfold frames. induction n as [|n IH]; simpl; [done | exact IH]. Qed.

Lemma length_frames (g : bool) (n : nat) (objs : list ObjectData) :
  length (frames g n objs) = length objs.
Proof.
  unfold frames. induction n as [|n IH]; [done|].
  change (Nat.iter (S n) (simulate g) objs)
    with (simulate g (Nat.iter n (simulate g) objs)).
  destruct g; cbn [simulate]; [by rewrite length_gravity_step | done].
Qed.

Lemma pack_loop (objs : list ObjectData) (data : UBOData) (k : nat) :
  k <= length objs -> k <= 16 -> ubo_slots data ->
  let d := foldl (pack objs) data (seq 0 k) in
  ubo_slots d /\ numObjects d = numObjects data /\
  (forall i, i < k ->
     ubo_posRadius d !! i = posRadius <$> objs !! i /\
     ubo_color d !! i = color <$> objs !! i /\
     ubo_mass d !! i = mass <$> objs !! i) /\
  (forall i, k <= i ->
     ubo_posRadius d !! i = ubo_posRadius data !! i /\
     ubo_color d !! i = ubo_color data !! i /\
     ubo_mass d !! i = ubo_mass data !! i).
Proof.
  intros Hk Hk16 Hslots. cbv zeta. induction k as [|k IH].
  { simpl. repeat split; try apply Hslots; intros; lia. }
  rewrite seq_S, foldl_snoc. simpl.
  destruct IH as ((Hp & Hc & Hm) & Hnum & Hlow & Hhigh); [lia..|].
  set (d := foldl (pack objs) data (seq 0 k)) in *.
  unfold pack. destruct (lookup_lt_is_Some_2 objs k) as [obj Hobj]; [lia|].
  rewrite Hobj. simpl. split; [|split; [done|split]].
  - unfold ubo_slots; simpl. by rewrite !length_insert.
  - intros i Hi. destruct (decide (i = k)) as [->|Hne].
    + rewrite Hobj. simpl. rewrite !list_lookup_insert_eq by lia. done.
    + rewrite !list_lookup_insert_ne by done. apply Hlow. lia.
  - intros i Hi. rewrite !list_lookup_insert_ne by lia. apply Hhigh. lia.
Qed.

(** C6.  [uploadObjectsUBO] writes min(n, 16) into the count field and
    fills exactly the first min(n, 16) slots of the three arrays, in
    list order, from the first min(n, 16) objects; the slots from
    min(n, 16) on keep what they held.  The integrator has no such
    cap: one step keeps all n objects and moves each of them, at any
    index, its velocity gaining the pulls of all the n - 1 others
    (those before it in the vector as this step has already moved
    them) and its position gaining the new velocity. *)
Theorem uploadObjectsUBO_truncates_at_16 (objs : list ObjectData) (data : UBOData) :
  ubo_slots data ->
  let packed := uploadObjectsUBO objs data in
  let count := Nat.min (length objs) 16 in
  numObjects packed = Z.of_nat count /\
  (forall i obj, i < count -> objs !! i = Some obj ->
     ubo_posRadius packed !! i = Some (posRadius obj) /\
     ubo_color packed !! i = Some (color obj) /\
     ubo_mass packed !! i = Some (mass obj)) /\
  (forall i, count <= i ->
     ubo_posRadius packed !! i = ubo_posRadius data !! i /\
     ubo_color packed !! i = ubo_color data !! i /\
     ubo_mass packed !! i = ubo_mass data !! i) /\
  length (gravity_step objs) = length objs /\
  (forall i obj, objs !! i = Some obj ->
     let objs' := gravity_step objs in
     let others := delete i (take i objs' ++ drop i objs) in
     let velocity' :=
       vec3_add (velocity obj)
         (foldl (fun acc obj2 => pull obj obj2 acc) (vec3_splat (f_lit 0 0)) others) in
     length others = length objs - 1 /\
     objs' !! i =
       Some {| posRadius := vec4_add (posRadius obj) (vec4_of_vec3 velocity' (f_lit 0 0));
               color := color obj; mass := mass obj; velocity := velocity' |}).
Proof.
  intros Hslots packed count.
  destruct (pack_loop objs
              {| numObjects := Z.of_nat count;
                 ubo_posRadius := ubo_posRadius data;
                 ubo_color := ubo_color data;
                 ubo_mass := ubo_mass data |} count)
    as (_ & Hnum & Hlow & Hhigh); [subst count; lia..|done|].
  fold (uploadObjectsUBO objs data) in Hnum, Hlow, Hhigh. fold packed in Hnum, Hlow, Hhigh.
  split; [exact Hnum|]. split; [|split; [exact Hhigh|split]].
  - intros i obj Hi Hobj. specialize (Hlow i Hi). by rewrite Hobj in Hlow.
  - apply length_gravity_step.
  - intros i obj Hobj. cbv zeta.
    destruct (gravity_step_explicit objs i obj Hobj) as [Hstep Hlen].
    split; [exact Hlen | exact Hstep].
Qed.

End Bodies.

(** ** The grid mesh, at any arithmetic *)

Section ListBind.
Context {X Y : Type}.
Local Open Scope nat_scope.

(** A bind whose pieces all have [k] entries is laid out in rows of [k]. *)
Lemma length_bind_const (f : X -> list Y) (l : list X) (k : nat) :
  (forall x, x ∈ l -> length (f x) = k) -> length (l ≫= f) = length l * k.
Proof.
  induction l as [|y l IH]; intros Hlen; [done|].
  rewrite bind_cons, length_app, IH, Hlen; simpl; [lia|left|].
  intros x Hx. apply Hlen. by right.
Qed.

Lemma lookup_bind_const (f : X -> list Y) (l : list X) (k i j : nat) (x : X) :
  (forall x, x ∈ l -> length (f x) = k) -> l !! i = Some x -> j < k ->
  (l ≫= f) !! (i * k + j) = f x !! j.
Proof.
  revert i. induction l as [|y l IH]; intros i Hlen Hi Hj; [done|].
  rewrite bind_cons. destruct i as [|i]; simpl in Hi.
  - injection Hi as ->. rewrite lookup_app_l; [done|].
    rewrite Hlen by left. lia.
  - rewrite lookup_app_r; rewrite Hlen by left; [|lia].
    replace (S i * k + j - k) with (i * k + j) by lia.
    apply IH; [|done..]. intros x' Hx'. apply Hlen. by right.
Qed.

End ListBind.

Section Grid.
Context {A : Arith}.

Lemma segments_row (n z : Z) (xs : list Z) (rest : list Z) :
  segments ((xs ≫= fun x => cell_indices n x z) ++ rest) =
  (xs ≫= fun x => cell_segments n x z) ++ segments rest.
Proof.
  induction xs as [|x xs IH]; [done|].
  rewrite !bind_cons, <- !app_assoc. simpl. by rewrite IH.
Qed.

Lemma segments_rows (n : Z) (zs xs : list Z) :
  segments (zs ≫= fun z => xs ≫= fun x => cell_indices n x z) =
  zs ≫= fun z => xs ≫= fun x => cell_segments n x z.
Proof.
  induction zs as [|z zs IH]; [done|].
  by rewrite !bind_cons, segments_row, IH.
Qed.

Lemma segments_grid_indices (n : Z) :
  segments (grid_indices n) =
  z ← seqZ 0 n; x ← seqZ 0 n; cell_segments n x z.
Proof. apply segments_rows. Qed.

Lemma length_grid_row (n : Z) (objs : list ObjectData) (z : Z) :
  length (x ← seqZ 0 (n + 1); [vertex n objs x z]) = Z.to_nat (n + 1).
Proof.
  rewrite (length_bind_const _ _ 1) by done. rewrite length_seqZ. lia.
Qed.

Lemma length_grid_vertices (n : Z) (objs : list ObjectData) :
  0 <= n -> length (grid_vertices n objs) = Z.to_nat ((n + 1) * (n + 1)).
Proof.
  intros Hn. unfold grid_vertices.
  rewrite (length_bind_const _ _ (Z.to_nat (n + 1))).
  - rewrite length_seqZ. lia.
  - intros z _. apply length_grid_row.
Qed.

(** The vertex pushed for column [x] of row [z] sits at index
    z·(n+1) + x. *)
Lemma grid_vertices_lookup (n : Z) (objs : list ObjectData) (x z : Z) :
  0 <= x <= n -> 0 <= z <= n ->
  grid_vertices n objs !! Z.to_nat (z * (n + 1) + x) = Some (vertex n objs x z).
Proof.
  intros Hx Hz. unfold grid_vertices.
  replace (Z.to_nat (z * (n + 1) + x))
    with (Z.to_nat z * Z.to_nat (n + 1) + Z.to_nat x)%nat by lia.
  rewrite (lookup_bind_const _ _ (Z.to_nat (n + 1)) _ _ z).
  - replace (Z.to_nat x) with (Z.to_nat x * 1 + 0)%nat by lia.
    rewrite (lookup_bind_const _ _ 1%nat _ _ x); [done|done| |lia].
    rewrite lookup_seqZ_lt by lia. f_equal. lia.
  - intros z' _. apply length_grid_row.
  - rewrite lookup_seqZ_lt by lia. f_equal. lia.
  - lia.
Qed.

Lemma length_grid_indices (n : Z) :
  0 <= n -> length (grid_indices n) = Z.to_nat (4 * n * n).
Proof.
  intros Hn. unfold grid_indices.
  rewrite (length_bind_const _ _ (Z.to_nat n * 4)%nat).
  - rewrite length_seqZ. lia.
  - intros z _. rewrite (length_bind_const _ _ 4%nat) by done.
    by rewrite length_seqZ.
Qed.

(** Every index names a vertex of the (n+1) x (n+1) grid. *)
Lemma grid_indices_bounds (n : Z) :
  Forall (fun i => 0 <= i < (n + 1) * (n + 1)) (grid_indices n).
Proof.
  unfold grid_indices. apply Forall_bind, Forall_seqZ. intros z Hz.
  apply Forall_bind, Forall_seqZ. intros x Hx. unfold cell_indices.
  repeat constructor; nia.
Qed.

Lemma grid_segments_adjacent (n : Z) (objs : list ObjectData) :
  Forall (joins_neighbours n (grid_vertices n objs) objs) (segments (grid_indices n)).
Proof.
  rewrite segments_grid_indices.
  apply Forall_bind, Forall_seqZ. intros z Hz.
  apply Forall_bind, Forall_seqZ. intros x Hx. unfold cell_segments.
  repeat constructor; exists x, z; simpl;
    (split; [lia|]); (split; [lia|]); (split; [done|]);
    (split; [apply grid_vertices_lookup; lia|]).
  - left. split; [done|].
    replace (z * (n + 1) + x + 1) with (z * (n + 1) + (x + 1)) by lia.
    apply grid_vertices_lookup; lia.
  - right. split; [done|].
    replace (z * (n + 1) + x + n + 1) with ((z + 1) * (n + 1) + x) by lia.
    apply grid_vertices_lookup; lia.
Qed.

(** C10.  On the grid [generateGrid] builds, the vertex buffer has
    (gridSize+1)² entries and the index buffer 4·gridSize², which is
    the count handed to glDrawElements; every index is below the
    vertex count; and every pair read by GL_LINES is (i, i+1) or
    (i, i+gridSize+1) with the two ends on orthogonally adjacent grid
    points. *)
Theorem generateGrid_indices_in_bounds (objs : list ObjectData) :
  let '(vertices, indices, gridIndexCount) := generateGrid objs in
  Z.of_nat (length vertices) = (gridSize + 1) * (gridSize + 1) /\
  Z.of_nat (length indices) = 4 * gridSize * gridSize /\
  gridIndexCount = Z.of_nat (length indices) /\
  Forall (fun i => 0 <= i < Z.of_nat (length vertices)) indices /\
  Forall (joins_neighbours gridSize vertices objs) (segments indices).
Proof.
  unfold generateGrid.
  rewrite length_grid_vertices, length_grid_indices by (unfold gridSize; lia).
  rewrite !Z2Nat.id by (unfold gridSize; lia).
  repeat split; [apply grid_indices_bounds | apply grid_segments_adjacent].
Qed.

End Grid.

(** ** Evaluations in IEEE arithmetic *)

Section IEEE_facts.
Local Existing Instance IEEE.

Lemma elem_of_grid_vertices (n : Z) (objs : list ObjectData) (v : vec3) :
  v ∈ grid_vertices n objs ->
  exists x z, 0 <= x <= n /\ 0 <= z <= n /\ v = vertex n objs x z.
Proof.
  unfold grid_vertices. rewrite list_elem_of_bind. intros (z & Hv & Hz).
  apply list_elem_of_bind in Hv as (x & Hv & Hx).
  apply elem_of_seqZ in Hz, Hx. apply list_elem_of_singleton in Hv.
  exists x, z. repeat split; (lia || done).
Qed.

(** The constants of [main.cpp] as binary data: G and C*C in
    binary64, 0.01f (0x3C23D70A), spacing and the visual offset in
    binary32, and the attractor's Schwarzschild radius, about
    1.268e10. *)
Lemma constants_binary :
  G = S754_finite false 5163989502626508 (-86) /\
  (C * C)%dbl = S754_finite false 5617219867105110 4 /\
  f_lit 1 (-2) = S754_finite false 10737418 (-30) /\
  spacing = S754_finite false 9765625 10 /\
  f_lit 3 10 = S754_finite false 14648438 11 /\
  bh_r_s SagA = S754_finite false 6650006860616424 (-19) /\
  schwarzschild attractor = bh_r_s SagA.
Proof. vm_compute. repeat split. Qed.

(** The 26 world coordinates of a grid axis lie between -12e10 and
    13e10, and none of them is -13e10. *)
Lemma world_axis (x : Z) :
  0 <= x <= gridSize ->
  SFleb (f_lit (-12) 10) (world gridSize x) = true /\
  SFleb (world gridSize x) (f_lit 13 10) = true /\
  SFeqb (world gridSize x) (f_lit (-13) 10) = false.
Proof.
  intros Hx.
  assert (Hall : forallb (fun x =>
            SFleb (f_lit (-12) 10) (world gridSize x) &&
            SFleb (world gridSize x) (f_lit 13 10) &&
            negb (SFeqb (world gridSize x) (f_lit (-13) 10)))
          (seqZ 0 (gridSize + 1)) = true) by (by vm_compute).
  rewrite forallb_forall in Hall. specialize (Hall x).
  rewrite !andb_true_iff, negb_true_iff in Hall.
  destruct Hall as [[? ?] ?]; [|repeat split; assumption].
  apply list_elem_of_In, elem_of_seqZ. lia.
Qed.

(** C8.  The grid is not centred: gridSize / 2 is the integer 12, so
    the 26 columns (and rows) run from -12·spacing to +13·spacing.
    The corner vertex at (13e10, 13e10) is in the mesh, no vertex has
    -13e10 as a coordinate, and the smallest and the largest
    coordinate of an axis are not negatives of each other. *)
Theorem grid_is_off_centre (objs : list ObjectData) :
  let vertices := fst (fst (generateGrid objs)) in
  world gridSize 0 = f_lit (-12) 10 /\
  world gridSize gridSize = f_lit 13 10 /\
  (forall v, v ∈ vertices ->
     SFleb (f_lit (-12) 10) (v3x v) = true /\ SFleb (v3x v) (f_lit 13 10) = true /\
     SFleb (f_lit (-12) 10) (v3z v) = true /\ SFleb (v3z v) (f_lit 13 10) = true) /\
  (exists v, v ∈ vertices /\ v3x v = f_lit 13 10 /\ v3z v = f_lit 13 10) /\
  (forall v, v ∈ vertices ->
     SFeqb (v3x v) (f_lit (-13) 10) = false /\
     SFeqb (v3z v) (f_lit (-13) 10) = false) /\
  SFeqb (world gridSize 0) (SFopp (world gridSize gridSize)) = false.
Proof.
  unfold generateGrid. cbv beta iota zeta delta [fst].
  assert (Hlo : world gridSize 0 = f_lit (-12) 10) by (vm_compute; reflexivity).
  assert (Hhi : world gridSize gridSize = f_lit 13 10) by (vm_compute; reflexivity).
  split; [exact Hlo|]. split; [exact Hhi|].
  split; [|split; [|split; [|vm_compute; reflexivity]]].
  - intros v (x & z & Hx & Hz & ->)%elem_of_grid_vertices.
    unfold vertex; cbn [v3x v3z].
    destruct (world_axis x Hx) as (? & ? & _), (world_axis z Hz) as (? & ? & _).
    repeat split; assumption.
  - exists (vertex gridSize objs gridSize gridSize).
    split; [|split; [exact Hhi|exact Hhi]].
    apply list_elem_of_lookup. eexists.
    apply grid_vertices_lookup; unfold gridSize; lia.
  - intros v (x & z & Hx & Hz & ->)%elem_of_grid_vertices.
    unfold vertex; cbn [v3x v3z].
    destruct (world_axis x Hx) as (_ & _ & ?), (world_axis z Hz) as (_ & _ & ?).
    split; assumption.
Qed.

(** C3, as stated, fails.  The attractor is the third entry of
    [objects], at the origin and at rest; one frame with the gravity
    flag set gives it the velocity (8.3e-4, 0, 8.3e-4), the pull of
    the two other bodies, and moves it off the origin by as much. *)
Lemma attractor_leaves_origin :
  match objects !! 2%nat, simulate true objects !! 2%nat with
  | Some sgr, Some sgr' =>
      SFeqb (v4x (posRadius sgr)) (f_lit 0 0) = true /\
      SFeqb (v4y (posRadius sgr)) (f_lit 0 0) = true /\
      SFeqb (v4z (posRadius sgr)) (f_lit 0 0) = true /\
      SFeqb (v3x (velocity sgr)) (f_lit 0 0) = true /\
      SFeqb (v3y (velocity sgr)) (f_lit 0 0) = true /\
      SFeqb (v3z (velocity sgr)) (f_lit 0 0) = true /\
      (v3x (velocity sgr') >? f_lit 8 (-4))%flt = true /\
      (v3z (velocity sgr') >? f_lit 8 (-4))%flt = true /\
      (v4x (posRadius sgr') >? f_lit 8 (-4))%flt = true /\
      (v4z (posRadius sgr') >? f_lit 8 (-4))%flt = true
  | _, _ => False
  end.
Proof. vm_compute. repeat split. Qed.

(** C2, as stated, fails.  After one step the first body moves at
    about +0.1669 and the second, which is pulled towards the place
    the first has already moved to, at about -0.1986: the speeds
    differ, the velocities do not cancel, and the midpoint of the two
    bodies has left the origin. *)
Lemma twins_lose_symmetry :
  match frames true 1 [twin (-1); twin 1] with
  | [b1; b2] =>
      (f_lit 166 (-3) <? v3x (velocity b1))%flt = true /\
      (v3x (velocity b1) <? f_lit 167 (-3))%flt = true /\
      (f_lit (-199) (-3) <? v3x (velocity b2))%flt = true /\
      (v3x (velocity b2) <? f_lit (-198) (-3))%flt = true /\
      SFeqb (length3 (velocity b1)) (length3 (velocity b2)) = false /\
      SFeqb (v3x (vec3_add (velocity b1) (velocity b2))) (f_lit 0 0) = false /\
      SFeqb (v4x (vec4_add (posRadius b1) (posRadius b2))) (f_lit 0 0) = false
  | _ => False
  end.
Proof. vm_compute. repeat split. Qed.

(** Bodies beyond the cap take part in the integration: of twenty
    bodies, the one at index 19 gets a velocity in a step, and the
    one at index 0 ends the step with another velocity than it would
    with the first sixteen alone. *)
Lemma bodies_beyond_cap_take_part :
  match gravity_step twenty !! 0%nat, gravity_step (take 16 twenty) !! 0%nat,
        gravity_step twenty !! 19%nat with
  | Some first, Some first16, Some last =>
      SFeqb (v3x (velocity first)) (v3x (velocity first16)) = false /\
      (v3x (velocity first) >? v3x (velocity first16))%flt = true /\
      (v3x (velocity last) <? f_lit 0 0)%flt = true
  | _, _, _ => False
  end.
Proof. vm_compute. repeat split. Qed.

Lemma uploadObjectsUBO_truncates_at_16_witness :
  ubo_slots stale /\
  numObjects (uploadObjectsUBO twenty stale) = 16 /\
  ubo_mass (uploadObjectsUBO twenty stale) !! 15%nat = Some (f_of_int 115) /\
  numObjects (uploadObjectsUBO objects stale) = 3 /\
  ubo_mass (uploadObjectsUBO objects stale) !! 3%nat = Some (f_of_int 7) /\
  length (gravity_step twenty) = 20%nat.
Proof.
  assert (Hslots : ubo_slots stale) by (repeat split).
  pose proof (uploadObjectsUBO_truncates_at_16 twenty stale Hslots) as H20.
  pose proof (uploadObjectsUBO_truncates_at_16 objects stale Hslots) as H3.
  cbv zeta in H20, H3.
  destruct H20 as (Hn20 & Hlow20 & _ & Hlen20 & _).
  destruct H3 as (Hn3 & _ & Hhigh3 & _).
  split; [exact Hslots|]. split; [exact Hn20|].
  split; [exact (proj2 (proj2 (Hlow20 15%nat _ ltac:(vm_compute; lia) eq_refl)))|].
  split; [exact Hn3|].
  split; [exact (proj2 (proj2 (Hhigh3 3%nat ltac:(vm_compute; lia))))|].
  exact Hlen20.
Defined.

(** The jump of the warp at the horizon, in binary64 and binary32, for
    the attractor: at the horizon the term is about -4.6e9, one ulp
    outside it is -3e10f, the square root having been rounded away. *)
Lemma warp_jump_binary :
  let r_s := schwarzschild attractor in
  let just_outside := SFsucc 53 1024 r_s in
  (just_outside >? r_s)%dbl = true /\
  outside r_s just_outside = SFopp (f_lit 3 10) /\
  (saturated r_s >? f_lit (-5) 9)%flt = true /\
  (saturated r_s <? f_lit (-4) 9)%flt = true.
Proof. vm_compute. repeat split. Qed.

(** At the scale of the program's own bodies the asymmetry is hidden
    by rounding: two solar masses at -4e11 and 4e11 pull each other by
    about 2e-4 per step, far below half an ulp of 4e11, so in binary32
    the positions do not change and the velocities stay exactly
    opposite (here after 1 and after 100 steps). *)
Lemma suns_symmetric_by_absorption :
  forallb (fun n =>
    match frames true n [sun (-4); sun 4] with
    | [b1; b2] =>
        SFeqb (v4x (posRadius b1)) (f_lit (-4) 11) &&
        SFeqb (v4x (posRadius b2)) (f_lit 4 11) &&
        (f_lit 0 0 <? v3x (velocity b1))%flt &&
        SFeqb (v3x (velocity b2)) (SFopp (v3x (velocity b1)))
    | _ => false
    end) [1%nat; 100%nat] = true.
Proof. vm_compute. reflexivity. Qed.

End IEEE_facts.

(** ** The camera in IEEE arithmetic: no NaN from finite input *)

Section IEEE_camera.
Local Existing Instance IEEE.

Ltac ieee :=
  cbv [flt dbl f_add f_sub f_mul f_div f_sqrt f_ltb d_add d_sub d_mul d_div
       d_sqrt d_ltb f2d d2f IEEE] in *.

Lemma shr_1_nonneg (mrs : shr_record) :
  0 <= shr_m mrs -> 0 <= shr_m (shr_1 mrs).
Proof. destruct mrs as [[|[p|p|]|p] r s]; simpl; lia. Qed.

Lemma iter_pos_preserves {X : Type} (P : X -> Prop) (f : X -> X) :
  (forall x, P x -> P (f x)) -> forall p x, P x -> P (SpecFloat.iter_pos f p x).
Proof. intros Hf. induction p as [p IH|p IH|]; simpl; auto. Qed.

Lemma shr_nonneg (mrs : shr_record) (e n : Z) :
  0 <= shr_m mrs -> 0 <= shr_m (fst (shr mrs e n)).
Proof.
  intros Hm. destruct n as [|p|p]; simpl; try done.
  apply (iter_pos_preserves (fun mrs => 0 <= shr_m mrs)); [apply shr_1_nonneg|done].
Qed.

Lemma shr_fexp_nonneg (prec emax m e : Z) (l : location) :
  0 <= m -> 0 <= shr_m (fst (shr_fexp prec emax m e l)).
Proof.
  intros Hm. unfold shr_fexp. apply shr_nonneg. by destruct l as [|[]].
Qed.

Lemma round_nearest_even_nonneg (m : Z) (l : location) :
  0 <= m -> 0 <= round_nearest_even m l.
Proof. intros Hm. destruct l as [|[]]; simpl; try destruct (Z.even m); lia. Qed.

Lemma binary_round_aux_not_nan (prec emax : Z) (s : bool) (mx ex : Z) (lx : location) :
  0 <= mx -> is_nan (binary_round_aux prec emax s mx ex lx) = false.
Proof.
  intros Hm. unfold binary_round_aux.
  pose proof (shr_fexp_nonneg prec emax mx ex lx Hm) as H1.
  destruct (shr_fexp prec emax mx ex lx) as [mrs' e']. simpl in H1.
  pose proof (shr_fexp_nonneg prec emax _ e' loc_Exact
                (round_nearest_even_nonneg _ (loc_of_shr_record mrs') H1)) as H2.
  destruct (shr_fexp prec emax _ e' loc_Exact) as [mrs'' e'']. simpl in H2.
  destruct (shr_m mrs'') as [|m|m]; [done| |lia].
  by destruct (e'' <=? emax - prec).
Qed.

Lemma binary_round_not_nan (prec emax : Z) (s : bool) (m : positive) (e : Z) :
  is_nan (binary_round prec emax s m e) = false.
Proof.
  unfold binary_round. destruct (shl_align _ _ _) as [mz ez].
  by apply binary_round_aux_not_nan.
Qed.

Lemma binary_normalize_not_nan (prec emax m e : Z) (s : bool) :
  is_nan (binary_normalize prec emax m e s) = false.
Proof. destruct m; simpl; [done|apply binary_round_not_nan..]. Qed.

Lemma convert_not_nan (prec emax : Z) (x : spec_float) :
  is_nan x = false -> is_nan (ieee_convert prec emax x) = false.
Proof. destruct x; simpl; try done. intros _. apply binary_round_not_nan. Qed.

Lemma convert_finite_not_nan (prec emax : Z) (x : spec_float) :
  is_finite x = true -> is_nan (ieee_convert prec emax x) = false.
Proof. destruct x; simpl; try done. intros _. apply binary_round_not_nan. Qed.

Lemma SFsub_not_nan (prec emax : Z) (x y : spec_float) :
  is_finite x = true -> is_nan y = false -> is_nan (SFsub prec emax x y) = false.
Proof.
  destruct x as [sx|sx| |sx mx ex], y as [sy|sy| |sy my ey]; simpl; try done.
  - by destruct sx, sy.
  - intros _ _. apply binary_normalize_not_nan.
Qed.

Lemma SFmul_not_nan (prec emax : Z) (x : spec_float) (s : bool) (m : positive) (e : Z) :
  is_nan x = false -> is_nan (SFmul prec emax x (S754_finite s m e)) = false.
Proof.
  destruct x as [sx|sx| |sx mx ex]; simpl; try done.
  intros _. by apply binary_round_aux_not_nan.
Qed.


Lemma is_finite_not_nan (x : spec_float) : is_finite x = true -> is_nan x = false.
Proof. by destruct x. Qed.

Lemma SFcompare_antisym (x y : spec_float) :
  SFcompare y x = option_map CompOpp (SFcompare x y).
Proof.
  destruct x as [sx|sx| |sx mx ex], y as [sy|sy| |sy my ey]; simpl; try done;
    try (by destruct sx, sy); try (by destruct sx); try (by destruct sy).
  pose proof (Pos.compare_cont_antisym mx my Eq) as Hm. simpl in Hm.
  destruct sx, sy; simpl; try done; rewrite (Z.compare_antisym ex ey);
    destruct (ex ?= ey); simpl; try done; by rewrite Hm.
Qed.

Lemma SFcompare_not_nan (x y : spec_float) :
  is_nan x = false -> is_nan y = false -> is_Some (SFcompare x y).
Proof. destruct x, y; simpl; try done; intros _ _; by eexists. Qed.

Lemma SFltb_false_SFleb (x y : spec_float) :
  is_nan x = false -> is_nan y = false -> SFltb x y = false -> SFleb y x = true.
Proof.
  intros Hx Hy. unfold SFltb, SFleb. rewrite (SFcompare_antisym x y).
  destruct (SFcompare_not_nan x y Hx Hy) as [c ->]. by destruct c.
Qed.

Lemma SFleb_refl (x : spec_float) : is_nan x = false -> SFleb x x = true.
Proof.
  unfold SFleb. destruct x as [s|s| |s m e]; simpl; try done; try (by destruct s).
  intros _. rewrite Z.compare_refl, Pos.compare_cont_refl. by destruct s.
Qed.

Lemma SFleb_bounds_finite (lo x hi : spec_float) :
  is_finite lo = true -> is_finite hi = true ->
  SFleb lo x = true -> SFleb x hi = true -> is_finite x = true.
Proof.
  unfold SFleb.
  destruct lo as [sl|sl| |sl ml el], hi as [sh|sh| |sh mh eh], x as [s|s| |s m e];
    simpl; try done; destruct s; try done; try (by destruct sl); by destruct sh.
Qed.

(** [std::clamp] of anything but a NaN lands between its bounds. *)
Lemma std_clamp_between (v lo hi : spec_float) :
  is_nan v = false -> is_nan lo = false -> is_nan hi = false ->
  SFleb lo hi = true ->
  SFleb lo (std_clamp v lo hi) = true /\ SFleb (std_clamp v lo hi) hi = true.
Proof.
  intros Hv Hlo Hhi Hle. unfold std_clamp. ieee.
  destruct (SFltb v lo) eqn:H1; [by split; [apply SFleb_refl|]|].
  destruct (SFltb hi v) eqn:H2; [by split; [|apply SFleb_refl]|].
  split; by apply SFltb_false_SFleb.
Qed.

Lemma eps_value : f_lit 1 (-2) = S754_finite false 10737418 (-30).
Proof. vm_compute. reflexivity. Qed.

Lemma elevation_max_value : (PI - f_lit 1 (-2))%flt = S754_finite false 13134852 (-22).
Proof. vm_compute. reflexivity. Qed.

(** *** Magnitudes through rounding *)

Lemma digits2_pos_log2 (p : positive) :
  Zpos (digits2_pos p) = Z.log2 (Zpos p) + 1.
Proof.
  assert (Hsize : forall q, digits2_pos q = Pos.size q).
  { induction q as [q IH|q IH|]; cbn [digits2_pos Pos.size]; by rewrite ?IH. }
  rewrite Hsize. destruct p as [p|p|]; cbn [Z.log2 Pos.size]; lia.
Qed.

Lemma Zdigits2_log2 (m : Z) : 0 < m -> Zdigits2 m = Z.log2 m + 1.
Proof. destruct m as [|p|p]; try lia. intros _. apply digits2_pos_log2. Qed.

Lemma shr_1_half (mrs : shr_record) :
  0 <= shr_m mrs -> shr_m (shr_1 mrs) = shr_m mrs / 2.
Proof.
  destruct mrs as [m r s]. cbn [shr_m]. intros Hm.
  destruct m as [|[p|p|]|p]; cbn [shr_1 shr_m]; try lia.
  all: try reflexivity.
  - apply (Z.div_unique _ 2 _ 1); lia.
  - apply (Z.div_unique _ 2 _ 0); lia.
Qed.

Lemma iter_shr_1 (p : positive) (mrs : shr_record) :
  0 <= shr_m mrs ->
  shr_m (SpecFloat.iter_pos shr_1 p mrs) = shr_m mrs / 2 ^ Zpos p.
Proof.
  revert mrs. induction p as [p IH|p IH|]; intros mrs Hm; cbn [SpecFloat.iter_pos].
  - pose proof (shr_1_nonneg mrs Hm) as H1.
    assert (H2 : 0 <= shr_m (SpecFloat.iter_pos shr_1 p (shr_1 mrs))).
    { rewrite IH by done. apply Z.div_pos; lia. }
    rewrite IH, IH, shr_1_half by done.
    assert (0 < 2 ^ Zpos p) by (apply Z.pow_pos_nonneg; lia).
    rewrite !Z.div_div by lia. f_equal.
    replace (Zpos p~1) with (1 + Zpos p + Zpos p) by lia.
    rewrite !Z.pow_add_r, Z.pow_1_r by lia. ring.
  - assert (H2 : 0 <= shr_m (SpecFloat.iter_pos shr_1 p mrs)).
    { rewrite IH by done. apply Z.div_pos; lia. }
    assert (0 < 2 ^ Zpos p) by (apply Z.pow_pos_nonneg; lia).
    rewrite IH, IH by done. rewrite Z.div_div by lia. f_equal.
    replace (Zpos p~0) with (Zpos p + Zpos p) by lia.
    by rewrite Z.pow_add_r by lia.
  - rewrite shr_1_half by done. by rewrite Z.pow_1_r.
Qed.

Lemma shr_spec (mrs : shr_record) (e n : Z) :
  0 <= shr_m mrs ->
  shr_m (fst (shr mrs e n)) = shr_m mrs / 2 ^ Z.max 0 n /\
  snd (shr mrs e n) = e + Z.max 0 n.
Proof.
  intros Hm. destruct n as [|p|p]; cbn [shr fst snd].
  - rewrite Z.max_id. change (2 ^ 0) with 1. rewrite Z.div_1_r. lia.
  - rewrite iter_shr_1 by done. rewrite Z.max_r by lia. done.
  - rewrite Z.max_l by lia. change (2 ^ 0) with 1. rewrite Z.div_1_r. lia.
Qed.

Lemma shr_m_of_loc (m : Z) (l : location) : shr_m (shr_record_of_loc m l) = m.
Proof. by destruct l as [|[]]. Qed.

(** Shifting a positive mantissa down to [prec] digits keeps it
    positive and keeps digits + exponent, as long as the result is
    not subnormal. *)
Lemma shr_fexp_keeps (prec emax m e : Z) (l : location) :
  0 < prec -> 0 < m -> 3 - emax <= Z.log2 m + 1 + e ->
  let r := shr_fexp prec emax m e l in
  0 < shr_m (fst r) /\
  Z.log2 (shr_m (fst r)) + 1 + snd r = Z.log2 m + 1 + e.
Proof.
  intros Hprec Hm Hk r. subst r. unfold shr_fexp.
  rewrite Zdigits2_log2 by done.
  set (d := Z.log2 m + 1) in *.
  assert (Hfexp : fexp prec emax (d + e) = d + e - prec).
  { unfold fexp, emin. lia. }
  rewrite Hfexp.
  destruct (shr_spec (shr_record_of_loc m l) e (d + e - prec - e)) as [Hsm Hse].
  { rewrite shr_m_of_loc. lia. }
  rewrite Hsm, Hse, shr_m_of_loc.
  set (t := Z.max 0 (d + e - prec - e)).
  pose proof (Z.log2_nonneg m) as Hlog.
  assert (Ht : 0 <= t <= Z.log2 m) by (subst t d; lia).
  assert (Hpow : 2 ^ t <= m).
  { transitivity (2 ^ Z.log2 m).
    - apply Z.pow_le_mono_r; lia.
    - apply Z.log2_spec. lia. }
  assert (Hpos : 0 < m / 2 ^ t).
  { apply Z.div_str_pos. split; [|done]. apply Z.pow_pos_nonneg; lia. }
  split; [exact Hpos|].
  rewrite <- Z.shiftr_div_pow2 by lia.
  rewrite Z.log2_shiftr by done. lia.
Qed.

Lemma round_nearest_even_above (m : Z) (l : location) :
  m <= round_nearest_even m l.
Proof. destruct l as [|[]]; cbn [round_nearest_even]; try lia. destruct (Z.even m); lia. Qed.

(** Rounding a positive mantissa that is not below the normal range
    gives an infinity or a finite non-zero datum at least as large in
    digits + exponent. *)
Lemma binary_round_aux_at_least (prec emax k : Z) (s : bool) (m e : Z) (l : location) :
  0 < prec -> 0 < m -> 3 - emax <= k -> k <= Z.log2 m + 1 + e ->
  at_least k (binary_round_aux prec emax s m e l) = true.
Proof.
  intros Hprec Hm Hk Hke. unfold binary_round_aux.
  destruct (shr_fexp_keeps prec emax m e l Hprec Hm ltac:(lia)) as [Hpos1 Hbin1].
  destruct (shr_fexp prec emax m e l) as [mrs1 e1]. cbn [fst snd] in Hpos1, Hbin1.
  set (m2 := round_nearest_even (shr_m mrs1) (loc_of_shr_record mrs1)).
  assert (Hm2 : shr_m mrs1 <= m2) by apply round_nearest_even_above.
  assert (Hlog2 : Z.log2 (shr_m mrs1) <= Z.log2 m2) by (apply Z.log2_le_mono; lia).
  destruct (shr_fexp_keeps prec emax m2 e1 loc_Exact Hprec ltac:(lia) ltac:(lia))
    as [Hpos2 Hbin2].
  destruct (shr_fexp prec emax m2 e1 loc_Exact) as [mrs2 e2]. cbn [fst snd] in Hpos2, Hbin2.
  destruct (shr_m mrs2) as [|m3|m3] eqn:Hm3; try lia.
  destruct (e2 <=? emax - prec); cbn [at_least]; [|done].
  rewrite digits2_pos_log2. apply Z.leb_le. lia.
Qed.

Lemma SFmul_at_least (prec emax a b : Z) (x y : spec_float) :
  0 < prec -> 3 - emax <= a + b - 1 ->
  at_least a x = true -> at_least b y = true ->
  at_least (a + b - 1) (SFmul prec emax x y) = true.
Proof.
  intros Hprec Hk Hx Hy.
  destruct x as [sx|sx| |sx mx ex], y as [sy|sy| |sy my ey];
    cbn [at_least] in Hx, Hy; try done.
  cbn [SFmul]. apply Z.leb_le in Hx, Hy. rewrite digits2_pos_log2 in Hx, Hy.
  apply binary_round_aux_at_least; try done.
  pose proof (Z.log2_mul_below (Zpos mx) (Zpos my) ltac:(lia) ltac:(lia)).
  rewrite Pos2Z.inj_mul. lia.
Qed.

Lemma SFleb_at_least (ml : positive) (el : Z) (x : spec_float) :
  SFleb (S754_finite false ml el) x = true -> at_least (el + 1) x = true.
Proof.
  destruct x as [s|s| |[|] m e]; unfold SFleb; cbn [SFcompare at_least]; try done.
  destruct (Z.compare_spec el e); try done; intros _; apply Z.leb_le; lia.
Qed.

Lemma at_least_not_zero (k : Z) (x : spec_float) :
  at_least k x = true -> is_zero x = false /\ is_nan x = false.
Proof. by destruct x. Qed.


(** What [shr] makes of a mantissa, with the exponent it returns. *)
Lemma shr_fexp_spec (prec emax m e : Z) (l : location) :
  0 <= m ->
  let n := fexp prec emax (Zdigits2 m + e) - e in
  shr_m (fst (shr_fexp prec emax m e l)) = m / 2 ^ Z.max 0 n /\
  snd (shr_fexp prec emax m e l) = e + Z.max 0 n.
Proof.
  intros Hm n. unfold shr_fexp. fold n.
  destruct (shr_spec (shr_record_of_loc m l) e n) as [Hsm Hse].
  { by rewrite shr_m_of_loc. }
  by rewrite Hsm, Hse, shr_m_of_loc.
Qed.

Lemma Zdigits2_above (m : Z) : 0 <= m -> m < 2 ^ Zdigits2 m.
Proof.
  intros Hm. destruct (decide (m = 0)) as [->|Hne]; [done|].
  rewrite Zdigits2_log2 by lia. apply Z.log2_spec. lia.
Qed.

Lemma Zdigits2_nonneg (m : Z) : 0 <= Zdigits2 m.
Proof. by destruct m. Qed.

(** A shifted mantissa has at most [prec] digits. *)
Lemma shr_fexp_below (prec emax m e : Z) (l : location) :
  0 < prec -> 0 <= m ->
  0 <= shr_m (fst (shr_fexp prec emax m e l)) < 2 ^ prec.
Proof.
  intros Hprec Hm.
  destruct (shr_fexp_spec prec emax m e l Hm) as [-> _].
  set (t := Z.max 0 _).
  assert (Ht : 0 <= t /\ Zdigits2 m - prec <= t) by (subst t; unfold fexp; lia).
  assert (0 < 2 ^ t) by (apply Z.pow_pos_nonneg; lia).
  split; [apply Z.div_pos; lia|].
  apply Z.div_lt_upper_bound; [lia|].
  rewrite <- Z.pow_add_r by lia.
  pose proof (Zdigits2_above m Hm). pose proof (Zdigits2_nonneg m).
  eapply Z.lt_le_trans; [eassumption|]. apply Z.pow_le_mono_r; lia.
Qed.

Lemma round_nearest_even_below (m : Z) (l : location) :
  round_nearest_even m l <= m + 1.
Proof. destruct l as [|[]]; cbn [round_nearest_even]; try lia. destruct (Z.even m); lia. Qed.

(** The mantissa of a rounded datum has at most [prec] digits. *)
Lemma binary_round_aux_fits (prec emax : Z) (s : bool) (m e : Z) (l : location) :
  0 < prec -> 0 <= m ->
  mantissa_fits prec (binary_round_aux prec emax s m e l) = true.
Proof.
  intros Hprec Hm. unfold binary_round_aux.
  pose proof (shr_fexp_below prec emax m e l Hprec Hm) as H1.
  destruct (shr_fexp prec emax m e l) as [mrs1 e1]. cbn [fst] in H1.
  set (m2 := round_nearest_even (shr_m mrs1) (loc_of_shr_record mrs1)).
  assert (Hm2 : 0 <= m2).
  { pose proof (round_nearest_even_above (shr_m mrs1) (loc_of_shr_record mrs1)).
    subst m2. lia. }
  pose proof (shr_fexp_below prec emax m2 e1 loc_Exact Hprec Hm2) as H2.
  destruct (shr_fexp prec emax m2 e1 loc_Exact) as [mrs2 e2]. cbn [fst] in H2.
  destruct (shr_m mrs2) as [|m3|m3] eqn:Hm3; try done.
  destruct (e2 <=? emax - prec); [|done]. cbn [mantissa_fits].
  apply Z.leb_le. rewrite digits2_pos_log2.
  destruct H2 as [_ H2]. apply Z.log2_lt_pow2 in H2; lia.
Qed.

Lemma convert_any_fits (prec emax : Z) (x : spec_float) :
  0 < prec -> mantissa_fits prec (ieee_convert prec emax x) = true.
Proof.
  intros Hprec. destruct x as [s|s| |s m e]; try done.
  cbn [ieee_convert]. unfold binary_round.
  destruct (shl_align _ _ _) as [mz ez]. by apply binary_round_aux_fits.
Qed.

(** *** Widening stays finite *)

Lemma iter_xO (m p : positive) : Zpos (Pos.iter xO m p) = Zpos m * 2 ^ Zpos p.
Proof.
  induction p as [|p IH] using Pos.peano_ind.
  - cbn [Pos.iter]. lia.
  - rewrite Pos.iter_succ, Pos2Z.inj_xO, IH, Pos2Z.inj_succ, Z.pow_succ_r by lia. ring.
Qed.

Lemma shl_align_spec (m : positive) (e e' : Z) :
  let r := shl_align m e e' in
  snd r = Z.min e e' /\ Zpos (fst r) = Zpos m * 2 ^ (e - Z.min e e').
Proof.
  unfold shl_align. destruct (e' - e) as [|d|d] eqn:Hd; cbn [fst snd].
  - rewrite Z.min_l by lia. rewrite Z.sub_diag. lia.
  - rewrite Z.min_l by lia. rewrite Z.sub_diag. lia.
  - rewrite Z.min_r by lia. split; [done|].
    rewrite iter_xO. f_equal. f_equal. lia.
Qed.

(** Rounding a mantissa of at least [prec] digits, neither below the
    normal range nor within one binade of the top, gives a finite
    datum. *)
Lemma binary_round_aux_finite (prec emax : Z) (s : bool) (m e : Z) (l : location) :
  0 < prec -> 0 < m -> prec <= Z.log2 m + 1 ->
  3 - emax <= Z.log2 m + 1 + e -> Z.log2 m + 1 + e + 1 <= emax ->
  is_finite (binary_round_aux prec emax s m e l) = true.
Proof.
  intros Hprec Hm Hd Hlo Hhi. unfold binary_round_aux.
  destruct (shr_fexp_keeps prec emax m e l Hprec Hm Hlo) as [Hpos1 Hbin1].
  destruct (shr_fexp_spec prec emax m e l ltac:(lia)) as [_ He1].
  rewrite Zdigits2_log2 in He1 by done.
  assert (Hfexp : fexp prec emax (Z.log2 m + 1 + e) = Z.log2 m + 1 + e - prec)
    by (unfold fexp, emin; lia).
  rewrite Hfexp in He1.
  destruct (shr_fexp prec emax m e l) as [mrs1 e1]. cbn [fst snd] in Hpos1, Hbin1, He1.
  set (m2 := round_nearest_even (shr_m mrs1) (loc_of_shr_record mrs1)).
  assert (Hm2 : shr_m mrs1 <= m2 <= shr_m mrs1 + 1).
  { split; [apply round_nearest_even_above | apply round_nearest_even_below]. }
  assert (Hlog2 : Z.log2 (shr_m mrs1) <= Z.log2 m2 <= Z.log2 (shr_m mrs1) + 1).
  { split; [apply Z.log2_le_mono; lia|].
    transitivity (Z.log2 (Z.succ (shr_m mrs1))).
    - apply Z.log2_le_mono. lia.
    - apply Z.log2_succ_le. }
  destruct (shr_fexp_keeps prec emax m2 e1 loc_Exact Hprec ltac:(lia) ltac:(lia))
    as [Hpos2 Hbin2].
  destruct (shr_fexp_spec prec emax m2 e1 loc_Exact ltac:(lia)) as [_ He2].
  rewrite Zdigits2_log2 in He2 by lia.
  assert (Hfexp2 : fexp prec emax (Z.log2 m2 + 1 + e1) = Z.log2 m2 + 1 + e1 - prec)
    by (unfold fexp, emin; lia).
  rewrite Hfexp2 in He2.
  destruct (shr_fexp prec emax m2 e1 loc_Exact) as [mrs2 e2].
  cbn [fst snd] in Hpos2, Hbin2, He2.
  destruct (shr_m mrs2) as [|m3|m3] eqn:Hm3; try lia.
  destruct (Z.leb_spec e2 (emax - prec)); [done|]. lia.
Qed.

Lemma binary_round_finite (prec emax : Z) (s : bool) (m : positive) (e : Z) :
  0 < prec ->
  3 - emax <= Zpos (digits2_pos m) + e -> Zpos (digits2_pos m) + e + 1 <= emax ->
  is_finite (binary_round prec emax s m e) = true.
Proof.
  intros Hprec Hlo Hhi. unfold binary_round.
  rewrite digits2_pos_log2 in *.
  assert (Hfexp : fexp prec emax (Z.log2 (Zpos m) + 1 + e) = Z.log2 (Zpos m) + 1 + e - prec)
    by (unfold fexp, emin; lia).
  rewrite Hfexp.
  destruct (shl_align_spec m e (Z.log2 (Zpos m) + 1 + e - prec)) as [Hez Hmz].
  destruct (shl_align _ _ _) as [mz ez]. cbn [fst snd] in Hez, Hmz.
  assert (Hlog : Z.log2 (Zpos mz) = Z.log2 (Zpos m) + (e - ez)).
  { rewrite Hmz, Z.log2_mul_pow2 by lia. lia. }
  apply binary_round_aux_finite; lia.
Qed.


Lemma radius_bounds_value :
  f_lit 1 10 = S754_finite false 9765625 10 /\
  f_lit 1 12 = S754_finite false 15258789 16 /\
  f2d (f_lit 25 9) = S754_finite false 6553599865782272 (-18).
Proof. vm_compute. repeat split. Qed.

Lemma camera_fp_ok_initial : camera_fp_ok camera.
Proof. split; reflexivity. Qed.

(** A datum between two positive finite bounds is positive and finite,
    with its exponent between theirs. *)
Lemma between_shape (ml mh : positive) (el eh : Z) (x : spec_float) :
  SFleb (S754_finite false ml el) x = true ->
  SFleb x (S754_finite false mh eh) = true ->
  exists m e, x = S754_finite false m e /\ el <= e <= eh.
Proof.
  destruct x as [s|s| |[|] m e]; unfold SFleb; cbn [SFcompare]; try done.
  - by destruct s.
  - intros Hlo Hhi. exists m, e. split; [done|].
    destruct (Z.compare_spec el e), (Z.compare_spec e eh); try done; lia.
Qed.

(** Widening a radius within the limits gives a finite double. *)
Lemma radius_widens_finite (r : spec_float) :
  SFleb (f_lit 1 10) r = true -> SFleb r (f_lit 1 12) = true ->
  mantissa_fits 24 r = true -> is_finite (f2d r) = true.
Proof.
  destruct radius_bounds_value as (-> & -> & _). intros Hlo Hhi Hfits.
  destruct (between_shape _ _ _ _ _ Hlo Hhi) as (m & e & -> & He).
  cbn [mantissa_fits] in Hfits. apply Z.leb_le in Hfits. ieee. cbn [ieee_convert].
  pose proof (Pos2Z.is_pos (digits2_pos m)).
  apply binary_round_finite; lia.
Qed.

(** [std::clamp] changes nothing within the bounds. *)
Lemma std_clamp_within (v lo hi : spec_float) :
  SFleb lo v = true -> SFleb v hi = true -> std_clamp v lo hi = v.
Proof.
  intros Hlo Hhi. unfold std_clamp. ieee.
  assert (H1 : SFltb v lo = false).
  { unfold SFltb, SFleb in *. rewrite (SFcompare_antisym lo v).
    destruct (SFcompare lo v) as [[| |]|]; done. }
  assert (H2 : SFltb hi v = false).
  { unfold SFltb, SFleb in *. rewrite (SFcompare_antisym v hi).
    destruct (SFcompare v hi) as [[| |]|]; done. }
  by rewrite H1, H2.
Qed.

(** [glm::clamp] of anything but a NaN lands between its bounds, and
    is its argument or one of the bounds. *)
Lemma glm_clamp_between (x lo hi : spec_float) :
  is_nan x = false -> is_nan lo = false -> is_nan hi = false ->
  SFleb lo hi = true ->
  SFleb lo (glm_clamp x lo hi) = true /\ SFleb (glm_clamp x lo hi) hi = true.
Proof.
  intros Hx Hlo Hhi Hle. unfold glm_clamp, glm_min, glm_max. ieee.
  destruct (SFltb x lo) eqn:H1.
  - destruct (SFltb hi lo) eqn:H2.
    + split; [done | by apply SFleb_refl].
    + split; [by apply SFleb_refl | done].
  - destruct (SFltb hi x) eqn:H2.
    + split; [done | by apply SFleb_refl].
    + split; by apply SFltb_false_SFleb.
Qed.

Lemma glm_clamp_cases (x lo hi : spec_float) :
  glm_clamp x lo hi = x \/ glm_clamp x lo hi = lo \/ glm_clamp x lo hi = hi.
Proof.
  unfold glm_clamp, glm_min, glm_max. ieee.
  destruct (SFltb x lo); [destruct (SFltb hi lo) | destruct (SFltb hi x)]; auto.
Qed.

Lemma processMouseMove_fp_ok (x y : spec_float) (c : Camera) :
  is_finite x = true -> is_finite y = true ->
  camera_fp_ok c -> camera_fp_ok (processMouseMove x y c).
Proof.
  intros Hx Hy [Hlo Hhi Hspeed HlastX HlastY Hrlo Hrhi Hfits Hmin Hmax Hzoom Htarget].
  unfold processMouseMove.
  destruct (dragging c && panning c); [by split|].
  destruct (dragging c && negb (panning c)); [|by split].
  rewrite Hspeed.
  assert (Hclamp :
    let el := std_clamp (elevation c - d2f (y - lastY c)%dbl * f_lit 1 (-2))%flt
                (f_lit 1 (-2)) (PI - f_lit 1 (-2))%flt in
    SFleb (f_lit 1 (-2)) el = true /\ SFleb el (PI - f_lit 1 (-2))%flt = true).
  { rewrite elevation_max_value in *. rewrite eps_value in *. cbv zeta.
    apply std_clamp_between; try done. ieee.
    apply SFsub_not_nan.
    - by apply (SFleb_bounds_finite (S754_finite false 10737418 (-30)) _
                  (S754_finite false 13134852 (-22))).
    - apply SFmul_not_nan, convert_not_nan, SFsub_not_nan; [done|].
      by apply is_finite_not_nan. }
  destruct Hclamp as [Hlo' Hhi'].
  split; cbn [update set_moving set_last set_orbit elevation orbitSpeed lastX lastY
              radius minRadius maxRadius zoomSpeed target];
    assumption.
Qed.

Lemma processMouseButton_fp_ok (b a m : Z) (cur : spec_float * spec_float)
    (s : Camera * bool) :
  is_finite (fst cur) = true -> is_finite (snd cur) = true ->
  camera_fp_ok (fst s) -> camera_fp_ok (fst (processMouseButton b a m cur s)).
Proof.
  destruct s as [c g].
  intros Hx Hy [Hlo Hhi Hspeed HlastX HlastY Hrlo Hrhi Hfits Hmin Hmax Hzoom Htarget].
  unfold processMouseButton. cbn [fst].
  repeat (destruct (_ || _) || destruct (_ =? _)%Z); by split.
Qed.

Lemma processScroll_fp_ok (xo yo : dbl) (c : Camera) :
  is_finite yo = true -> camera_fp_ok c -> camera_fp_ok (processScroll xo yo c).
Proof.
  intros Hyo [Hlo Hhi Hspeed HlastX HlastY Hrlo Hrhi Hfits Hmin Hmax Hzoom Htarget].
  unfold processScroll. rewrite Hmin, Hmax, Hzoom.
  set (x := d2f (f2d (radius c) - yo * f2d (f_lit 25 9))%dbl).
  assert (Hx : is_nan x = false).
  { subst x. destruct radius_bounds_value as (_ & _ & ->). ieee.
    apply convert_not_nan, SFsub_not_nan.
    - by apply radius_widens_finite.
    - apply SFmul_not_nan. by apply is_finite_not_nan. }
  assert (Hxfits : mantissa_fits 24 x = true) by (by apply convert_any_fits).
  destruct (glm_clamp_between x (@f_lit IEEE 1 10) (@f_lit IEEE 1 12)) as [Hrlo' Hrhi'];
    [done|by vm_compute..|].
  assert (Hfits' : mantissa_fits 24 (glm_clamp x (f_lit 1 10) (f_lit 1 12)) = true).
  { destruct (glm_clamp_cases x (@f_lit IEEE 1 10) (@f_lit IEEE 1 12)) as [->|[->| ->]];
      [done|by vm_compute..]. }
  split; cbn [update set_moving set_radius elevation orbitSpeed lastX lastY
              radius minRadius maxRadius zoomSpeed target];
    assumption.
Qed.

Lemma handle_fp_ok (s : Camera * bool) (ev : Event) :
  event_finite ev = true -> camera_fp_ok (fst s) -> camera_fp_ok (fst (handle s ev)).
Proof.
  intros Hev Hok. destruct ev; cbn [handle fst]; simpl in Hev.
  - apply andb_true_iff in Hev as [? ?]. by apply processMouseMove_fp_ok.
  - apply andb_true_iff in Hev as [? ?]. by apply processMouseButton_fp_ok.
  - by apply processScroll_fp_ok.
  - destruct s as [c g]. by rewrite processKey_camera.
Qed.

Lemma run_fp_ok (evs : list Event) :
  forallb event_finite evs = true -> camera_fp_ok (fst (run evs)).
Proof.
  intros Hevs. unfold run. induction evs as [|ev evs IH] using rev_ind.
  - apply camera_fp_ok_initial.
  - rewrite forallb_app in Hevs. apply andb_true_iff in Hevs as [Hevs Hev].
    simpl in Hev. rewrite andb_true_r in Hev.
    rewrite foldl_snoc. by apply handle_fp_ok; [|apply IH].
Qed.

(** The drag of [drag_down] asks for an elevation of 1.5 - 3.0 and is
    clamped to the lower bound 0.01f. *)
Lemma drag_down_hits_lower_bound :
  elevation (fst (run drag_down)) = f_lit 1 (-2) /\
  dragging (fst (run drag_down)) = true /\
  moving (fst (run drag_down)) = true.
Proof. vm_compute. repeat split. Qed.

(** In binary32, after any run of events with finite coordinates the
    elevation is between 0.01f and PI - 0.01f (and so is no NaN). *)
Lemma elevation_clamped_binary32 (evs : list Event) :
  forallb event_finite evs = true ->
  let c := fst (run evs) in
  SFleb (f_lit 1 (-2)) (elevation c) = true /\
  SFleb (elevation c) (PI - f_lit 1 (-2))%flt = true.
Proof. intros Hevs. by destruct (run_fp_ok evs Hevs). Qed.

(** *** The position is not the target *)

Lemma SFsub_zero_r (x : spec_float) :
  is_zero (SFsub 24 128 x (S754_zero false)) = is_zero x.
Proof. by destruct x as [[|]|[|]| |s m e]. Qed.

Lemma SFmul_nan_is_nan (x : spec_float) : SFmul 24 128 x S754_nan = S754_nan.
Proof. by destruct x. Qed.

(** A factor far enough from zero times a cosine or sine that is a
    NaN or at least 1/2 in size is not a zero. *)
Lemma scaled_not_zero (rs t : spec_float) :
  at_least 4 rs = true ->
  is_nan t || at_least 0 t = true ->
  is_zero (SFmul 24 128 rs t) = false.
Proof.
  intros Hrs Ht. apply orb_true_iff in Ht as [Ht|Ht].
  - destruct t; try done. by rewrite SFmul_nan_is_nan.
  - pose proof (SFmul_at_least 24 128 4 0 rs t ltac:(lia) ltac:(lia) Hrs Ht) as H.
    by apply at_least_not_zero in H as [? _].
Qed.

Lemma position_not_target {T : Trig IEEE} (c : Camera) :
  camera_fp_ok c ->
  at_least (-6) (f_sin (elevation c)) = true ->
  is_nan (f_cos (azimuth c)) || at_least 0 (f_cos (azimuth c))
  || (is_nan (f_sin (azimuth c)) || at_least 0 (f_sin (azimuth c))) = true ->
  let d := vec3_sub (position c) (target c) in
  is_zero (v3x d) && is_zero (v3z d) = false /\ position c <> target c.
Proof.
  intros [Hlo Hhi Hspeed HlastX HlastY Hrlo Hrhi Hfits Hmin Hmax Hzoom Htarget] Hsin Htrig.
  assert (Hpos : position c =
    Vec3 (radius c * f_sin (elevation c) * f_cos (azimuth c))%flt
         (radius c * f_cos (elevation c))%flt
         (radius c * f_sin (elevation c) * f_sin (azimuth c))%flt).
  { unfold position. by rewrite std_clamp_within. }
  assert (Hrs : at_least 4 (radius c * f_sin (elevation c))%flt = true).
  { destruct radius_bounds_value as (Hval & _). rewrite Hval in Hrlo.
    apply SFleb_at_least in Hrlo. ieee.
    exact (SFmul_at_least 24 128 11 (-6) _ _ ltac:(lia) ltac:(lia) Hrlo Hsin). }
  assert (Hxz : is_zero (v3x (position c)) && is_zero (v3z (position c)) = false).
  { rewrite Hpos. cbn [v3x v3z]. ieee.
    apply orb_true_iff in Htrig as [Hc|Hs].
    - by rewrite (scaled_not_zero _ _ Hrs Hc).
    - rewrite (scaled_not_zero _ _ Hrs Hs). apply andb_false_r. }
  cbv zeta. split.
  - rewrite Htarget. unfold vec3_sub, vec3_splat. cbn [v3x v3z].
    change (f_lit 0 0) with (S754_zero false). ieee.
    by rewrite !SFsub_zero_r.
  - intros Heq. rewrite Heq, Htarget in Hxz. by vm_compute in Hxz.
Qed.

End IEEE_camera.

(** ** The attractor among the bodies, at any arithmetic *)

Section Attractor.
Context {A : Arith}.

(** The bodies before the attractor in [objects] are the two others,
    so in every frame with the flag set the attractor sees both of
    them as that frame has already moved them. *)
Lemma attractor_step (n : nat) :
  let before := frames true n objects in
  let after := frames true (S n) objects in
  exists obj b0 b1,
    before !! 2%nat = Some obj /\
    after !! 0%nat = Some b0 /\ after !! 1%nat = Some b1 /\
    let velocity' :=
      vec3_add (velocity obj)
        (pull obj b1 (pull obj b0 (vec3_splat (f_lit 0 0)))) in
    after !! 2%nat =
      Some {| posRadius := vec4_add (posRadius obj) (vec4_of_vec3 velocity' (f_lit 0 0));
              color := color obj; mass := mass obj; velocity := velocity' |}.
Proof.
  intros before after.
  assert (Hstep : after = gravity_step before) by reflexivity.
  assert (Hlen : length before = 3%nat) by apply length_frames.
  assert (Hlen' : length after = 3%nat) by apply length_frames.
  destruct before as [|a0 [|a1 [|obj [|? ?]]]] eqn:Hbefore; try discriminate Hlen.
  destruct after as [|b0 [|b1 [|b2 [|? ?]]]] eqn:Hafter; try discriminate Hlen'.
  exists obj, b0, b1. split; [done|]. split; [done|]. split; [done|].
  destruct (gravity_step_explicit [a0; a1; obj] 2 obj eq_refl) as [Hobj _].
  rewrite <- Hstep in Hobj. exact Hobj.
Qed.

(** C3 (as amended).  The attractor's entry in [objects] starts at
    the origin and at rest, and nothing moves for as long as the
    gravity flag is clear.  With the flag set it is integrated like
    every other body, in each frame: its velocity gains the pulls of
    the two other bodies, taken where that frame has already moved
    them, and its position gains the new velocity, which is the rule
    the step applies to the body at any index of any list.  So it
    does not stay at the origin: in binary32, from the program's own
    bodies, it is off the origin in x and in z after each of the
    first ten such frames. *)
Theorem attractor_integrated_like_any_body :
  objects !! 2%nat = Some attractor /\
  vec3_of_vec4 (posRadius attractor) = vec3_splat (f_lit 0 0) /\
  velocity attractor = vec3_splat (f_lit 0 0) /\
  (forall n, frames false n objects = objects) /\
  (forall n,
     let before := frames true n objects in
     let after := frames true (S n) objects in
     exists obj b0 b1,
       before !! 2%nat = Some obj /\
       after !! 0%nat = Some b0 /\ after !! 1%nat = Some b1 /\
       let velocity' :=
         vec3_add (velocity obj)
           (pull obj b1 (pull obj b0 (vec3_splat (f_lit 0 0)))) in
       after !! 2%nat =
         Some {| posRadius := vec4_add (posRadius obj) (vec4_of_vec3 velocity' (f_lit 0 0));
                 color := color obj; mass := mass obj; velocity := velocity' |}) /\
  (forall (objs : list ObjectData) (i : nat) (obj : ObjectData),
     objs !! i = Some obj ->
     let objs' := gravity_step objs in
     let others := delete i (take i objs' ++ drop i objs) in
     let velocity' :=
       vec3_add (velocity obj)
         (foldl (fun acc obj2 => pull obj obj2 acc) (vec3_splat (f_lit 0 0)) others) in
     objs' !! i =
       Some {| posRadius := vec4_add (posRadius obj) (vec4_of_vec3 velocity' (f_lit 0 0));
               color := color obj; mass := mass obj; velocity := velocity' |}) /\
  forallb (fun n => match @frames IEEE true n (@objects IEEE) !! 2%nat with
                    | Some obj => off_origin obj
                    | None => false
                    end) (seq 1 10) = true.
Proof.
  split; [done|]. split; [done|]. split; [done|].
  split; [intros n; apply frames_gravity_off|].
  split; [exact attractor_step|].
  split; [intros objs i obj Hobj; exact (proj1 (gravity_step_explicit objs i obj Hobj))|].
  vm_compute. reflexivity.
Qed.

End Attractor.

Lemma attractor_integrated_like_any_body_witness :
  let objs' := @gravity_step IEEE objects in
  let others := delete 2%nat (take 2 objs' ++ drop 2 objects) in
  let velocity' :=
    vec3_add (velocity attractor)
      (foldl (fun acc obj2 => pull attractor obj2 acc) (vec3_splat (f_lit 0 0)) others) in
  objs' !! 2%nat =
    Some {| posRadius := vec4_add (posRadius attractor) (vec4_of_vec3 velocity' (f_lit 0 0));
            color := color attractor; mass := mass attractor; velocity := velocity' |}.
Proof.
  destruct (@attractor_integrated_like_any_body IEEE) as (Hthird & _ & _ & _ & _ & Hrule & _).
  exact (Hrule objects 2%nat attractor Hthird).
Defined.

(** ** Analytic statements in ideal arithmetic *)

Section Ideal_facts.
Local Existing Instance Ideal.
Local Existing Instance Ideal_trig.
Local Open Scope R_scope.

Ltac ideal :=
  cbv [flt dbl f_add f_sub f_mul f_div f_sqrt f_ltb d_add d_sub d_mul d_div
       d_sqrt d_ltb f2d d2f f_pi f_of_int f_sin f_cos Ideal Ideal_trig] in *.

Lemma ltb_lt (a b : R) : ideal_ltb a b = true <-> a < b.
Proof. unfold ideal_ltb. destruct (Rlt_dec a b); split; (done || lra). Qed.

Lemma ltb_ge (a b : R) : ideal_ltb a b = false <-> b <= a.
Proof. unfold ideal_ltb. destruct (Rlt_dec a b); split; (done || lra). Qed.

Ltac case_ltb :=
  match goal with
  | |- context [ideal_ltb ?a ?b] =>
      let H := fresh "Hlt" in
      destruct (ideal_ltb a b) eqn:H;
      [apply ltb_lt in H | apply ltb_ge in H]
  end.

Lemma std_clamp_range (v lo hi : R) :
  lo <= hi -> lo <= std_clamp v lo hi <= hi.
Proof. intros Hle. unfold std_clamp. ideal. repeat case_ltb; lra. Qed.

Lemma std_clamp_id (v lo hi : R) :
  lo <= v <= hi -> std_clamp v lo hi = v.
Proof. intros Hle. unfold std_clamp. ideal. repeat case_ltb; lra. Qed.

Lemma glm_clamp_range (x lo hi : R) :
  lo <= hi -> lo <= glm_clamp x lo hi <= hi.
Proof.
  intros Hle. unfold glm_clamp, glm_min, glm_max. ideal. repeat case_ltb; lra.
Qed.

(** The literals of the camera. *)
Lemma lit_eps : f_lit 1 (-2) = 1 / 100.
Proof. reflexivity. Qed.
Lemma lit_minRadius : f_lit 1 10 = 10000000000.
Proof. reflexivity. Qed.
Lemma lit_maxRadius : f_lit 1 12 = 1000000000000.
Proof. reflexivity. Qed.
Lemma lit_zero : f_lit 0 0 = 0.
Proof. reflexivity. Qed.

Lemma PI_above_3 : 3 < Rtrigo1.PI.
Proof. pose proof PI2_3_2. lra. Qed.

Lemma camera_ok_initial : camera_ok camera.
Proof.
  pose proof PI_above_3.
  split; cbn [camera elevation radius minRadius maxRadius target];
    rewrite ?lit_minRadius, ?lit_maxRadius; try done.
  - change (f_lit 15 (-1)) with (15 / 10). lra.
  - change (f_lit 138 9) with 138000000000. lra.
Qed.

Lemma processMouseMove_ok (x y : R) (c : Camera) :
  camera_ok c -> camera_ok (processMouseMove x y c).
Proof.
  intros [He Hr Hmin Hmax Ht]. pose proof PI_above_3.
  unfold processMouseMove.
  destruct (dragging c && panning c); [by split|].
  destruct (dragging c && negb (panning c)); [|by split].
  split; cbn [update set_moving set_last set_orbit elevation radius minRadius
              maxRadius target]; try done.
  rewrite lit_eps. apply std_clamp_range. unfold PI. ideal. lra.
Qed.

Lemma processMouseButton_ok (b a m : Z) (cur : R * R) (s : Camera * bool) :
  camera_ok (fst s) -> camera_ok (fst (processMouseButton b a m cur s)).
Proof.
  destruct s as [c g]. intros [He Hr Hmin Hmax Ht]. unfold processMouseButton.
  cbn [fst]. repeat (destruct (_ || _) || destruct (_ =? _)%Z); by split.
Qed.

Lemma processScroll_ok (xo yo : R) (c : Camera) :
  camera_ok c -> camera_ok (processScroll xo yo c).
Proof.
  intros [He Hr Hmin Hmax Ht]. unfold processScroll.
  split; cbn [update set_moving set_radius elevation radius minRadius
              maxRadius target]; try done.
  rewrite Hmin, Hmax. apply glm_clamp_range. lra.
Qed.

Lemma handle_ok (s : Camera * bool) (ev : Event) :
  camera_ok (fst s) -> camera_ok (fst (handle s ev)).
Proof.
  intros Hok. destruct ev; cbn [handle fst].
  - by apply processMouseMove_ok.
  - by apply processMouseButton_ok.
  - by apply processScroll_ok.
  - destruct s as [c g]. by rewrite processKey_camera.
Qed.

Lemma run_ok (evs : list Event) : camera_ok (fst (run evs)).
Proof.
  unfold run. induction evs as [|ev evs IH] using rev_ind.
  - apply camera_ok_initial.
  - rewrite foldl_snoc. by apply handle_ok.
Qed.

(** On a camera the handlers can produce, the clamp in [position] is
    the identity, and the vector from the target to the position has
    length [radius]. *)
Lemma position_distance (c : Camera) :
  camera_ok c -> length3 (vec3_sub (position c) (target c)) = radius c.
Proof.
  intros [He Hr Hmin Hmax Ht]. pose proof PI_above_3.
  unfold position. rewrite lit_eps, Ht.
  rewrite std_clamp_id by (unfold PI; ideal; lra).
  unfold length3, dot, vec3_sub. cbn [v3x v3y v3z]. ideal.
  set (r := radius c). set (e := elevation c). set (a := azimuth c).
  assert (He1 : sin e * sin e + cos e * cos e = 1) by apply (sin2_cos2 e).
  assert (Ha1 : sin a * sin a + cos a * cos a = 1) by apply (sin2_cos2 a).
  transitivity (sqrt (r * r * (sin e * sin e * (sin a * sin a + cos a * cos a)
                               + cos e * cos e))).
  { f_equal. ring. }
  rewrite Ha1, Rmult_1_r, He1, Rmult_1_r.
  apply sqrt_square. subst r. lra.
Qed.

(** In ideal arithmetic, after any run of input events: the elevation
    is clamped, the radius is positive, and the position is at
    distance [radius] from the target. *)
Lemma camera_orbit_ideal (evs : list Event) :
  let c := fst (run evs) in
  1 / 100 <= elevation c <= Rtrigo1.PI - 1 / 100 /\
  0 < radius c /\
  position c <> target c /\
  length3 (vec3_sub (position c) (target c)) = radius c /\
  length3 (vec3_sub (position c) (target c)) <> 0.
Proof.
  intros c. pose proof (run_ok evs) as Hok. fold c in Hok.
  pose proof (position_distance c Hok) as Hlen.
  destruct Hok as [He Hr Hmin Hmax Ht].
  split; [exact He|]. split; [lra|].
  split; [|split; [exact Hlen|rewrite Hlen; lra]].
  intros Heq. rewrite Heq, Ht in Hlen.
  unfold length3, dot, vec3_sub in Hlen. cbn [v3x v3y v3z] in Hlen. ideal.
  replace ((0 - 0) * (0 - 0) + (0 - 0) * (0 - 0) + (0 - 0) * (0 - 0)) with 0 in Hlen by ring.
  rewrite sqrt_0 in Hlen. lra.
Qed.

(** *** The warp at the horizon *)

Lemma lit_two : d_lit 2 0 = 2.
Proof. reflexivity. Qed.
Lemma lit_two_f : f_lit 2 0 = 2.
Proof. reflexivity. Qed.
Lemma lit_offset : f_lit 3 10 = 30000000000.
Proof. reflexivity. Qed.

Lemma outside_eq (r_s dist : R) :
  outside r_s dist = 2 * sqrt (r_s * (dist - r_s)) - 30000000000.
Proof. unfold outside. by rewrite lit_two, lit_offset. Qed.

Lemma saturated_eq (r_s : R) :
  0 <= r_s -> saturated r_s = 2 * r_s - 30000000000.
Proof.
  intros Hr. unfold saturated. rewrite lit_two_f, lit_offset. ideal.
  by rewrite sqrt_square.
Qed.

Lemma planar_dist_nonneg (obj : ObjectData) (worldX worldZ : R) :
  0 <= planar_dist obj worldX worldZ.
Proof. unfold planar_dist. ideal. apply sqrt_pos. Qed.

(** Just outside the horizon the warp term is close to minus the
    offset: the square root tends to 0. *)
Lemma outside_limit (r_s : R) :
  0 <= r_s ->
  forall eps, 0 < eps ->
  exists delta, 0 < delta /\
    forall dist, r_s < dist < r_s + delta ->
      Rabs (outside r_s dist - (0 - 30000000000)) < eps.
Proof.
  intros Hr eps Heps. exists (eps * eps / (4 * (r_s + 1))).
  assert (Hden : 0 < 4 * (r_s + 1)) by lra.
  split; [apply Rdiv_lt_0_compat; nra|].
  intros dist [Hlo Hhi]. rewrite outside_eq.
  set (t := dist - r_s). assert (Ht : 0 < t) by (subst t; lra).
  assert (Htd : t * (4 * (r_s + 1)) < eps * eps).
  { apply (Rmult_lt_reg_r (/ (4 * (r_s + 1)))); [by apply Rinv_0_lt_compat|].
    rewrite Rmult_assoc, Rinv_r, Rmult_1_r by lra. subst t. unfold Rdiv in Hhi. lra. }
  assert (Hsq : sqrt (r_s * t) < eps / 2).
  { rewrite <- (sqrt_square (eps / 2)) by lra.
    apply sqrt_lt_1_alt. split; nra. }
  pose proof (sqrt_pos (r_s * t)).
  replace (2 * sqrt (r_s * t) - 30000000000 - (0 - 30000000000))
    with (2 * sqrt (r_s * t)) by ring.
  rewrite Rabs_pos_eq; lra.
Qed.

(** ... and so stays away from the saturated value when r_s > 0. *)
Lemma outside_misses_saturated (r_s : R) :
  0 < r_s ->
  ~ (forall eps, 0 < eps ->
     exists delta, 0 < delta /\
       forall dist, r_s < dist < r_s + delta ->
         Rabs (outside r_s dist - saturated r_s) < eps).
Proof.
  intros Hr Hcont.
  destruct (outside_limit r_s ltac:(lra) r_s Hr) as (d1 & Hd1 & Hnear).
  destruct (Hcont r_s Hr) as (d2 & Hd2 & Hsat).
  set (dist := r_s + Rmin d1 d2 / 2).
  pose proof (Rmin_l d1 d2). pose proof (Rmin_r d1 d2).
  assert (0 < Rmin d1 d2) by (by apply Rmin_glb_lt).
  specialize (Hnear dist ltac:(subst dist; lra)).
  specialize (Hsat dist ltac:(subst dist; lra)).
  rewrite saturated_eq in Hsat by lra.
  apply Rabs_def2 in Hnear, Hsat. lra.
Qed.

(** C7 (as amended).  At a point whose planar distance to a body is
    exactly its Schwarzschild radius the warp term is the saturated
    one, 2·r_s minus the offset.  The warp is not continuous there:
    the outside formula tends to minus the offset alone as the
    distance comes down to r_s, 2·r_s below the saturated value. *)
Theorem warp_at_horizon (obj : ObjectData) (worldX worldZ : R) :
  planar_dist obj worldX worldZ = schwarzschild obj ->
  let r_s := schwarzschild obj in
  contribution obj worldX worldZ = saturated r_s /\
  saturated r_s = 2 * r_s - 30000000000 /\
  (forall eps, 0 < eps ->
   exists delta, 0 < delta /\
     forall dist, r_s < dist < r_s + delta ->
       Rabs (outside r_s dist - (0 - 30000000000)) < eps) /\
  saturated r_s - (0 - 30000000000) = 2 * r_s.
Proof.
  intros Hdist r_s.
  assert (Hr : 0 <= r_s).
  { subst r_s. rewrite <- Hdist. apply planar_dist_nonneg. }
  split.
  - unfold contribution. rewrite Hdist. ideal.
    by rewrite (proj2 (ltb_ge _ _)) by lra.
  - split; [by apply saturated_eq|]. split; [by apply outside_limit|].
    rewrite saturated_eq by done. ring.
Qed.

Lemma G_pos : 0 < G.
Proof. unfold G. change (d_lit 667430 (-16)) with (667430 / 10000000000000000). lra. Qed.

Lemma C_pos : 0 < C.
Proof. unfold C. change (d_lit 299792458 0) with 299792458. lra. Qed.

Lemma schwarzschild_pos (obj : ObjectData) : 0 < mass obj -> 0 < schwarzschild obj.
Proof.
  intros Hm. pose proof G_pos. pose proof C_pos.
  unfold schwarzschild. rewrite lit_two. ideal.
  apply Rdiv_lt_0_compat; [|nra].
  apply Rmult_lt_0_compat; [lra|done].
Qed.

Lemma horizon_body_r_s : 0 < schwarzschild horizon_body.
Proof.
  apply schwarzschild_pos. cbn [horizon_body mkObject mass]. unfold sun_mass.
  change (f_lit 198892 25) with 1988920000000000000000000000000. lra.
Qed.

Lemma horizon_body_dist :
  planar_dist horizon_body (world gridSize 12) (world gridSize 12)
  = schwarzschild horizon_body.
Proof.
  pose proof horizon_body_r_s as Hr.
  change (schwarzschild horizon_body) with sun_r_s in *.
  unfold planar_dist, world, spacing. rewrite lit_minRadius.
  cbn [horizon_body mkObject posRadius vec3_of_vec4 v3x v3z v4x v4z].
  change (12 - gridSize `quot` 2)%Z with 0%Z. ideal.
  match goal with
  | |- sqrt ?a = _ => replace a with (sun_r_s * sun_r_s) by ring
  end.
  apply sqrt_square. lra.
Qed.

Lemma warp_at_horizon_witness :
  planar_dist horizon_body (world gridSize 12) (world gridSize 12)
    = schwarzschild horizon_body /\
  contribution horizon_body (world gridSize 12) (world gridSize 12)
    = saturated (schwarzschild horizon_body).
Proof.
  split; [exact horizon_body_dist|].
  exact (proj1 (warp_at_horizon horizon_body _ _ horizon_body_dist)).
Defined.

(** C7, as stated, fails: for this body and this grid point the
    distance is exactly r_s, but the outside formula does not tend to
    the saturated value as the distance comes down to r_s. *)
Lemma warp_discontinuous_at_horizon :
  let r_s := schwarzschild horizon_body in
  planar_dist horizon_body (world gridSize 12) (world gridSize 12) = r_s /\
  ~ (forall eps, 0 < eps ->
     exists delta, 0 < delta /\
       forall dist, r_s < dist < r_s + delta ->
         Rabs (outside r_s dist - saturated r_s) < eps).
Proof.
  split; [exact horizon_body_dist|].
  apply outside_misses_saturated, horizon_body_r_s.
Qed.

(** *** Two equal bodies *)

Lemma length3_nonneg (v : vec3) : 0 <= length3 v.
Proof. unfold length3. ideal. apply sqrt_pos. Qed.

Lemma length3_scale (v : vec3) (k : R) :
  length3 (vec3_scale v k) = Rabs k * length3 v.
Proof.
  unfold length3, dot, vec3_scale. cbn [v3x v3y v3z]. ideal.
  destruct v as [a b c]. cbn [v3x v3y v3z].
  replace (a * k * (a * k) + b * k * (b * k) + c * k * (c * k))
    with (Rsqr k * (a * a + b * b + c * c)) by (unfold Rsqr; ring).
  rewrite sqrt_mult by (try apply Rle_0_sqr; nra).
  by rewrite sqrt_Rsqr_abs.
Qed.

(** The pull on a body, from rest: along the line to the other body,
    G·m2/d² strong. *)
Lemma pull_from_zero (obj obj2 : ObjectData) :
  let delta := vec3_sub (vec3_of_vec4 (posRadius obj2)) (vec3_of_vec4 (posRadius obj)) in
  let d := length3 delta in
  mass obj <> 0 -> 0 < d ->
  pull obj obj2 (vec3_splat (f_lit 0 0)) = vec3_scale delta (G * mass obj2 / (d * d * d)).
Proof.
  intros delta d Hm Hd. unfold pull. fold delta. fold d.
  rewrite lit_zero. ideal. rewrite (proj2 (ltb_lt 0 d)) by done.
  unfold vec3_add, vec3_scale, vec3_div, vec3_splat. cbn [v3x v3y v3z]. ideal.
  f_equal; ideal; field; split; lra.
Qed.

Lemma vec3_add_zero_l (v : vec3) : vec3_add (vec3_splat (f_lit 0 0)) v = v.
Proof.
  destruct v as [a b c]. unfold vec3_add, vec3_splat. cbn [v3x v3y v3z].
  rewrite lit_zero. f_equal; ideal; ring.
Qed.

Lemma strength_along (k d : R) :
  0 < d -> 0 <= k -> Rabs (k / (d * d * d)) * d = k / (d * d).
Proof.
  intros Hd Hk. rewrite Rabs_pos_eq.
  - field. lra.
  - apply Rmult_le_pos; [done|]. apply Rlt_le, Rinv_0_lt_compat.
    repeat apply Rmult_lt_0_compat; lra.
Qed.

(** C2 (as amended).  Two bodies of equal mass m, at rest at -p and
    p, a distance d apart.  In the first step the first body gets a
    velocity of size g = G·m/d² along the line to the second, and is
    moved by it before the second body is looked at.  The second body
    is then pulled towards the first body's new position, at the new
    distance d' = |d - g|, and gets a velocity of size G·m/d'² along
    that line.  The two speeds agree only when d' = d. *)
Theorem twins_first_step (x y z m r1 r2 : R) (col1 col2 : vec4) :
  0 < m -> 0 < x * x + y * y + z * z ->
  let p1 := Vec3 (- x) (- y) (- z) in
  let p2 := Vec3 x y z in
  let b1 := mkObject (vec4_of_vec3 p1 r1) col1 m in
  let b2 := mkObject (vec4_of_vec3 p2 r2) col2 m in
  let d := length3 (vec3_sub p2 p1) in
  let g := G * m / (d * d) in
  exists b1' b2',
    frames true 1 [b1; b2] = [b1'; b2'] /\
    d = 2 * sqrt (x * x + y * y + z * z) /\
    0 < g /\
    velocity b1' = vec3_scale (vec3_sub p2 p1) (G * m / (d * d * d)) /\
    length3 (velocity b1') = g /\
    vec3_of_vec4 (posRadius b1') = vec3_add p1 (velocity b1') /\
    let delta' := vec3_sub (vec3_of_vec4 (posRadius b1')) p2 in
    let d' := length3 delta' in
    d' = Rabs (d - g) /\
    (0 < d' ->
     velocity b2' = vec3_scale delta' (G * m / (d' * d' * d')) /\
     length3 (velocity b2') = G * m / (d' * d') /\
     (length3 (velocity b2') = length3 (velocity b1') <-> d' = d)).
Proof.
  intros Hm Hp p1 p2 b1 b2 d g. pose proof G_pos as HG.
  assert (Hd2 : d = 2 * sqrt (x * x + y * y + z * z)).
  { subst d. unfold length3, dot, vec3_sub, p1, p2. cbn [v3x v3y v3z]. ideal.
    replace ((x - - x) * (x - - x) + (y - - y) * (y - - y) + (z - - z) * (z - - z))
      with (2 * 2 * (x * x + y * y + z * z)) by ring.
    rewrite sqrt_mult, sqrt_square by lra. done. }
  assert (Hd : 0 < d) by (pose proof (sqrt_lt_R0 _ Hp); lra).
  assert (Hg : 0 < g) by (subst g; apply Rdiv_lt_0_compat; nra).
  set (k := @G Ideal * m / (d * d * d)).
  assert (Hkd : k * d = g) by (subst k g; field; lra).
  assert (Hv1 : velocity (advance b1 (pull b1 b2 (vec3_splat (f_lit 0 0))))
                = vec3_scale (vec3_sub p2 p1) k).
  { cbn [advance velocity b1 mkObject]. rewrite vec3_add_zero_l.
    apply (pull_from_zero b1 b2); cbn [b1 mkObject mass]; [lra|done]. }
  unfold frames. cbn [Nat.iter nat_rect simulate]. rewrite gravity_step_pair. cbv zeta.
  set (b1' := advance b1 (pull b1 b2 (vec3_splat (f_lit 0 0)))) in *.
  eexists _, _. split; [reflexivity|]. split; [exact Hd2|]. split; [exact Hg|].
  split; [exact Hv1|].
  assert (Hs1 : length3 (velocity b1') = g).
  { rewrite Hv1, length3_scale. fold d. subst k g.
    apply strength_along; [done|nra]. }
  split; [exact Hs1|]. split; [reflexivity|].
  set (delta' := vec3_sub (vec3_of_vec4 (posRadius b1')) p2).
  assert (Hdelta : delta' = vec3_scale (vec3_sub p2 p1) (k - 1)).
  { subst delta'. change (vec3_of_vec4 (posRadius b1')) with (vec3_add p1 (velocity b1')).
    rewrite Hv1. unfold vec3_sub, vec3_add, vec3_scale, p1, p2. cbn [v3x v3y v3z].
    f_equal; ideal; ring. }
  assert (Hd' : length3 delta' = Rabs (d - g)).
  { rewrite Hdelta, length3_scale. fold d.
    rewrite <- (Rabs_pos_eq d) at 1 by lra.
    rewrite <- Rabs_mult, Rabs_minus_sym. f_equal. lra. }
  cbv zeta. split; [exact Hd'|]. intros Hpos.
  set (d' := length3 delta') in *.
  assert (Hv2 : velocity (advance b2 (pull b2 b1' (vec3_splat (f_lit 0 0))))
                = vec3_scale delta' (@G Ideal * m / (d' * d' * d'))).
  { cbn [advance velocity b2 mkObject]. rewrite vec3_add_zero_l.
    apply (pull_from_zero b2 b1'); cbn [b2 mkObject mass]; [lra|done]. }
  assert (Hs2 : length3 (velocity (advance b2 (pull b2 b1' (vec3_splat (f_lit 0 0)))))
                = @G Ideal * m / (d' * d')).
  { rewrite Hv2, length3_scale. fold d'. apply strength_along; [done|nra]. }
  split; [exact Hv2|]. split; [exact Hs2|].
  rewrite Hs1, Hs2. subst g. split.
  - intros Heq.
    assert (Hsq : d' * d' = d * d).
    { apply (Rmult_eq_reg_l (@G Ideal * m / (d' * d') / (d * d))).
      - transitivity (@G Ideal * m / (d * d) ); [field; lra|]. rewrite <- Heq. field. lra.
      - apply Rgt_not_eq. repeat apply Rdiv_lt_0_compat; nra. }
    nra.
  - by intros ->.
Qed.

Lemma twins_first_step_witness :
  let white := Vec4 1 1 1 1 in
  0 < 10000000000 /\ 0 < 1 * 1 + 0 * 0 + 0 * 0 /\
  exists b1' b2',
    frames true 1
      [mkObject (vec4_of_vec3 (Vec3 (- 1) (- 0) (- 0)) 1) white 10000000000;
       mkObject (vec4_of_vec3 (Vec3 1 0 0) 1) white 10000000000]
    = [b1'; b2'].
Proof.
  intros white.
  assert (H1 : 0 < 10000000000) by lra.
  assert (H2 : 0 < 1 * 1 + 0 * 0 + 0 * 0) by lra.
  split; [exact H1|]. split; [exact H2|].
  destruct (twins_first_step 1 0 0 10000000000 1 1 white white H1 H2)
    as (b1' & b2' & Hstep & _).
  exists b1', b2'. exact Hstep.
Defined.

End Ideal_facts.

(** ** The camera in binary32 *)

Section Camera_binary32.
Local Existing Instance IEEE.

(** C9, as stated, fails.  A drag to a point whose ordinate is a NaN
    leaves the elevation a NaN: [std::clamp] returns its argument
    when both of its comparisons fail, so the elevation is then
    neither at least 0.01f nor at most PI - 0.01f. *)
Lemma nan_ordinate_escapes_clamp :
  let c := fst (run drag_nan) in
  is_nan (elevation c) = true /\
  SFleb (f_lit 1 (-2)) (elevation c) = false /\
  SFleb (elevation c) (PI - f_lit 1 (-2))%flt = false.
Proof. vm_compute. repeat split. Qed.

(** C9 (as amended).  After any run of input events whose cursor
    coordinates and scroll offsets are finite, from the initial
    camera, the elevation lies between 0.01f and PI - 0.01f and the
    radius between 1e10f and 1e12f, bit for bit in binary32.
    [position()] is then not the target, and the vector from the
    target to the position is not the zero vector, for every C
    library whose sine at the elevation is at least 2^-7 and whose
    cosine or sine at the azimuth is a NaN or at least 1/2 in size. *)
Theorem camera_orbit_never_singular (T : Trig IEEE) (evs : list Event) :
  forallb event_finite evs = true ->
  let c := fst (run evs) in
  SFleb (f_lit 1 (-2)) (elevation c) = true /\
  SFleb (elevation c) (PI - f_lit 1 (-2))%flt = true /\
  SFleb (f_lit 1 10) (radius c) = true /\
  SFleb (radius c) (f_lit 1 12) = true /\
  (at_least (-6) (f_sin (elevation c)) = true ->
   is_nan (f_cos (azimuth c)) || at_least 0 (f_cos (azimuth c))
   || (is_nan (f_sin (azimuth c)) || at_least 0 (f_sin (azimuth c))) = true ->
   let d := vec3_sub (position c) (target c) in
   is_zero (v3x d) && is_zero (v3z d) = false /\ position c <> target c).
Proof.
  intros Hevs c. pose proof (run_fp_ok evs Hevs) as Hok. fold c in Hok.
  split; [by destruct Hok|]. split; [by destruct Hok|].
  split; [by destruct Hok|]. split; [by destruct Hok|].
  intros Hsin Htrig. by apply position_not_target.
Qed.

Lemma camera_orbit_never_singular_witness :
  let c := fst (run drag_down) in
  SFleb (f_lit 1 (-2)) (elevation c) = true /\
  SFleb (f_lit 1 10) (radius c) = true /\
  @position IEEE taylor_trig c <> target c.
Proof.
  intros c.
  assert (Hfinite : forallb event_finite drag_down = true) by reflexivity.
  destruct (camera_orbit_never_singular taylor_trig drag_down Hfinite)
    as (Hlo & _ & Hrlo & _ & Hpos).
  split; [exact Hlo|]. split; [exact Hrlo|].
  assert (Hsin : at_least (-6) (@f_sin IEEE taylor_trig (elevation c)) = true)
    by (vm_compute; reflexivity).
  assert (Htrig :
    is_nan (@f_cos IEEE taylor_trig (azimuth c))
    || at_least 0 (@f_cos IEEE taylor_trig (azimuth c))
    || (is_nan (@f_sin IEEE taylor_trig (azimuth c))
        || at_least 0 (@f_sin IEEE taylor_trig (azimuth c))) = true)
    by (vm_compute; reflexivity).
  exact (proj2 (Hpos Hsin Htrig)).
Defined.

End Camera_binary32.

(** * Further properties of the code *)

(** ** The input handlers, at any arithmetic *)

Section Handlers.
Context {A : Arith}.

Lemma handle_settings_kept (s : Camera * bool) (ev : Event) :
  settings_kept (fst s) -> settings_kept (fst (handle s ev)).
Proof.
  destruct s as [c g]. intros Hc. destruct ev; cbn [handle fst].
  - unfold processMouseMove.
    destruct (dragging c && panning c); [exact Hc|].
    destruct (dragging c && negb (panning c)); exact Hc.
  - unfold processMouseButton. cbn [fst].
    destruct (_ || _); [|exact Hc].
    destruct (action =? GLFW_PRESS); [|destruct (action =? GLFW_RELEASE)];
      try exact Hc; destruct Hc as (? & ? & ? & ? & ? & ? & ?);
      repeat split; assumption.
  - exact Hc.
  - by rewrite processKey_camera.
Qed.

Lemma run_settings_kept (evs : list Event) : settings_kept (fst (run evs)).
Proof.
  unfold run. induction evs as [|ev evs IH] using rev_ind.
  - by repeat split.
  - rewrite foldl_snoc. by apply handle_settings_kept.
Qed.

(** X1.  Whatever the events, the handlers never change the target,
    the radius limits, the orbit, pan and zoom speeds, and they never
    set [panning]: the camera only ever orbits the origin. *)
Theorem camera_settings_never_change (evs : list Event) :
  let c := fst (run evs) in
  target c = vec3_splat (f_lit 0 0) /\
  minRadius c = f_lit 1 10 /\ maxRadius c = f_lit 1 12 /\
  orbitSpeed c = f_lit 1 (-2) /\ panSpeed c = f_lit 1 (-2) /\
  zoomSpeed c = f2d (f_lit 25 9) /\
  panning c = false.
Proof.
  exact (run_settings_kept evs).
Qed.

Lemma handle_gravity_kept (s : Camera * bool) (ev : Event) :
  touches_gravity ev = false -> snd (handle s ev) = snd s.
Proof.
  destruct s as [c g]. destruct ev; cbn [handle snd touches_gravity]; try done.
  - intros Hb. unfold processMouseButton. by rewrite Hb.
  - intros Hk. unfold processKey. by rewrite Hk.
Qed.

(** X2.  Only the right mouse button and a press of G reach
    [g_gravity]: a run of events without them leaves the flag as it
    was at start-up, off, so the bodies do not move. *)
Theorem gravity_stays_off_without_right_button_or_G (evs : list Event)
    (objs : list ObjectData) :
  forallb (fun ev => negb (touches_gravity ev)) evs = true ->
  snd (run evs) = false /\ simulate (snd (run evs)) objs = objs.
Proof.
  intros Hevs.
  assert (Hoff : snd (run evs) = false).
  { unfold run. induction evs as [|ev evs IH] using rev_ind; [done|].
    rewrite forallb_app in Hevs. apply andb_true_iff in Hevs as [Hevs Hev].
    simpl in Hev. rewrite andb_true_r, negb_true_iff in Hev.
    rewrite foldl_snoc, handle_gravity_kept by done. by apply IH. }
  by rewrite Hoff.
Qed.

Lemma handle_no_drag (s : Camera * bool) (ev : Event) :
  starts_drag ev = false -> dragging (fst s) = false ->
  dragging (fst (handle s ev)) = false /\
  azimuth (fst (handle s ev)) = azimuth (fst s) /\
  elevation (fst (handle s ev)) = elevation (fst s).
Proof.
  destruct s as [c g]. intros Hev Hd. destruct ev; cbn [handle fst starts_drag] in *.
  - unfold processMouseMove. by rewrite Hd.
  - unfold processMouseButton. cbn [fst].
    destruct (_ || _); [|done]. simpl in Hev. rewrite Hev.
    by destruct (action =? GLFW_RELEASE).
  - done.
  - by rewrite processKey_camera.
Qed.

(** X3.  The view turns only during a drag: in a run of events with
    no press of the left or middle button, mouse moves and everything
    else leave azimuth and elevation at their initial values. *)
Theorem view_fixed_without_drag (evs : list Event) :
  forallb (fun ev => negb (starts_drag ev)) evs = true ->
  let c := fst (run evs) in
  dragging c = false /\
  azimuth c = f_lit (-235) (-2) /\ elevation c = f_lit 15 (-1).
Proof.
  intros Hevs. cbv zeta. unfold run.
  induction evs as [|ev evs IH] using rev_ind; [done|].
  rewrite forallb_app in Hevs. apply andb_true_iff in Hevs as [Hevs Hev].
  simpl in Hev. rewrite andb_true_r, negb_true_iff in Hev.
  rewrite foldl_snoc. destruct (IH Hevs) as (Hd & Ha & He).
  destruct (handle_no_drag (foldl handle (camera, false) evs) ev Hev Hd)
    as (Hd' & Ha' & He').
  by rewrite Hd', Ha', He'.
Qed.

(** X4.  Zooming and turning do not interfere: a scroll followed by a
    mouse move leaves the camera exactly as the mouse move followed by
    the scroll. *)
Theorem processScroll_processMouseMove_commute (xo yo x y : dbl) (c : Camera) :
  processScroll xo yo (processMouseMove x y c)
  = processMouseMove x y (processScroll xo yo c).
Proof.
  unfold processScroll, processMouseMove.
  cbn [update set_radius set_moving set_last set_orbit dragging panning radius
       minRadius maxRadius zoomSpeed lastX lastY azimuth elevation orbitSpeed].
  destruct (dragging c), (panning c); reflexivity.
Qed.

Lemma handle_fst (s s' : Camera * bool) (ev : Event) :
  fst s = fst s' -> fst (handle s ev) = fst (handle s' ev).
Proof.
  destruct s as [c g], s' as [c' g']. cbn [fst]. intros <-.
  destruct ev; cbn [handle fst]; try reflexivity.
  by rewrite !processKey_camera.
Qed.

Lemma handle_snd (s s' : Camera * bool) (ev : Event) :
  snd s = snd s' -> snd (handle s ev) = snd (handle s' ev).
Proof.
  destruct s as [c g], s' as [c' g']. cbn [snd]. intros <-.
  destruct ev; cbn [handle snd]; try reflexivity.
  unfold processKey. by destruct (_ && _).
Qed.

(** X5.  The camera and the gravity switch do not influence each
    other: the camera after a run of events does not depend on the
    value the flag had before it, and the flag after the run does not
    depend on the camera. *)
Theorem camera_and_gravity_independent (evs : list Event) (c c' : Camera) (g g' : bool) :
  fst (foldl handle (c, g) evs) = fst (foldl handle (c, g') evs) /\
  snd (foldl handle (c, g) evs) = snd (foldl handle (c', g) evs).
Proof.
  induction evs as [|ev evs [IHc IHg]] using rev_ind; [done|].
  rewrite !foldl_snoc. split; [by apply handle_fst | by apply handle_snd].
Qed.

(** X17.  The flag [uploadCameraUBO] sends to the shader is computed
    afresh from [dragging] and [panning], not read from [moving]:
    after any run of events it says whether a drag is in progress,
    and right after a press of the left button it is set while
    [moving], which [dispatchCompute] consults, is still clear. *)
Theorem uploadCameraUBO_flag_is_dragging {T : Trig A} {Tn : Tangent A}
    (e : Engine) (evs : list Event) (cursor : dbl * dbl) (mods : Z) :
  ubo_moving (uploadCameraUBO e (fst (run evs))) = dragging (fst (run evs)) /\
  let pressed :=
    fst (run [MouseButton GLFW_MOUSE_BUTTON_LEFT GLFW_PRESS mods cursor]) in
  ubo_moving (uploadCameraUBO e pressed) = true /\ moving pressed = false.
Proof.
  split; [|done]. unfold uploadCameraUBO. cbn [ubo_moving].
  destruct (run_settings_kept evs) as (_ & _ & _ & _ & _ & _ & ->).
  apply orb_false_r.
Qed.

End Handlers.

Lemma gravity_stays_off_witness :
  forallb (fun ev => negb (touches_gravity ev)) drag_down = true /\
  snd (@run IEEE drag_down) = false.
Proof.
  assert (H : forallb (fun ev => negb (touches_gravity ev)) drag_down = true)
    by reflexivity.
  split; [exact H|].
  exact (proj1 (gravity_stays_off_without_right_button_or_G drag_down [] H)).
Defined.

Lemma view_fixed_without_drag_witness :
  forallb (fun ev => negb (starts_drag ev)) hover = true /\
  azimuth (fst (@run IEEE hover)) = @f_lit IEEE (-235) (-2).
Proof.
  assert (H : forallb (fun ev => negb (starts_drag ev)) hover = true)
    by reflexivity.
  split; [exact H|].
  exact (proj1 (proj2 (view_fixed_without_drag hover H))).
Defined.

(** ** What the gravity loop and the index loops leave out *)

Section Kept.
Context {A : Arith}.

Lemma integrate_mass (objs : list ObjectData) (i : nat) :
  mass <$> integrate objs i = mass <$> objs.
Proof.
  unfold integrate. destruct (objs !! i) as [obj|] eqn:Hi; [|done].
  rewrite list_fmap_insert. cbn [advance mass].
  apply list_insert_id. by rewrite list_lookup_fmap, Hi.
Qed.

Lemma integrate_color (objs : list ObjectData) (i : nat) :
  color <$> integrate objs i = color <$> objs.
Proof.
  unfold integrate. destruct (objs !! i) as [obj|] eqn:Hi; [|done].
  rewrite list_fmap_insert. cbn [advance color].
  apply list_insert_id. by rewrite list_lookup_fmap, Hi.
Qed.

Lemma simulate_kept (g : bool) (objs : list ObjectData) :
  length (simulate g objs) = length objs /\
  mass <$> simulate g objs = mass <$> objs /\
  color <$> simulate g objs = color <$> objs.
Proof.
  destruct g; [|done]. cbn [simulate]. split; [apply length_gravity_step|].
  unfold gravity_step. generalize (seq 0 (length objs)) as l.
  intros l. revert objs. induction l as [|i l IH]; intros objs; [done|].
  cbn [foldl]. destruct (IH (integrate objs i)) as [Hm Hc].
  by rewrite Hm, Hc, integrate_mass, integrate_color.
Qed.

Lemma play_kept (flags : list bool) (objs : list ObjectData) :
  let objs' := foldl (fun o g => simulate g o) objs flags in
  length objs' = length objs /\
  mass <$> objs' = mass <$> objs /\
  color <$> objs' = color <$> objs.
Proof.
  induction flags as [|g flags IH] using rev_ind; [done|].
  rewrite foldl_snoc. cbv zeta in IH.
  destruct IH as (Hl & Hm & Hc).
  destruct (simulate_kept g (foldl (fun o g => simulate g o) objs flags))
    as (Hl' & Hm' & Hc').
  cbv zeta. by rewrite Hl', Hm', Hc'.
Qed.

(** X6.  Whatever the gravity flag does from frame to frame, the
    simulation never adds or removes a body and never changes a
    body's mass or colour: only positions and velocities move. *)
Theorem gravity_keeps_mass_and_colour (flags : list bool) (objs : list ObjectData) :
  let objs' := foldl (fun o g => simulate g o) objs flags in
  length objs' = length objs /\
  mass <$> objs' = mass <$> objs /\
  color <$> objs' = color <$> objs.
Proof. exact (play_kept flags objs). Qed.

(** X7.  So the block of the objects that goes to the shader changes
    between frames in its positions only: after any number of frames,
    with gravity on or off, [uploadObjectsUBO] writes the same count,
    the same masses and the same colours as at start-up. *)
Theorem uploadObjectsUBO_after_gravity (flags : list bool) (objs : list ObjectData)
    (data : UBOData) :
  ubo_slots data ->
  let objs' := foldl (fun o g => simulate g o) objs flags in
  numObjects (uploadObjectsUBO objs' data) = numObjects (uploadObjectsUBO objs data) /\
  ubo_mass (uploadObjectsUBO objs' data) = ubo_mass (uploadObjectsUBO objs data) /\
  ubo_color (uploadObjectsUBO objs' data) = ubo_color (uploadObjectsUBO objs data).
Proof.
  intros Hslots objs'. destruct (play_kept flags objs) as (Hl & Hm & Hc).
  fold objs' in Hl, Hm, Hc.
  assert (Hpacked : forall os,
    let count := Nat.min (length os) 16 in
    let packed := uploadObjectsUBO os data in
    numObjects packed = Z.of_nat count /\
    (forall i, (i < count)%nat ->
       ubo_color packed !! i = (color <$> os) !! i /\
       ubo_mass packed !! i = (mass <$> os) !! i) /\
    (forall i, (count <= i)%nat ->
       ubo_color packed !! i = ubo_color data !! i /\
       ubo_mass packed !! i = ubo_mass data !! i)).
  { intros os count packed.
    destruct (pack_loop os
                {| numObjects := Z.of_nat count;
                   ubo_posRadius := ubo_posRadius data;
                   ubo_color := ubo_color data;
                   ubo_mass := ubo_mass data |} count)
      as (_ & Hnum & Hlow & Hhigh); [subst count; lia..|done|].
    fold (uploadObjectsUBO os data) in Hnum, Hlow, Hhigh.
    fold packed in Hnum, Hlow, Hhigh.
    split; [exact Hnum|]. split.
    - intros i Hi. rewrite !list_lookup_fmap.
      destruct (Hlow i Hi) as (_ & ? & ?). done.
    - intros i Hi. destruct (Hhigh i Hi) as (_ & ? & ?). done. }
  destruct (Hpacked objs) as (Hn & Hlow & Hhigh).
  destruct (Hpacked objs') as (Hn' & Hlow' & Hhigh').
  rewrite Hl in Hn', Hlow', Hhigh'. rewrite Hm, Hc in Hlow'.
  split; [by rewrite Hn, Hn'|].
  split; apply list_eq; intros i;
    (destruct (decide (i < Nat.min (length objs) 16)%nat) as [Hi|Hi];
     [destruct (Hlow i Hi) as [E1 E2], (Hlow' i Hi) as [E1' E2']
     |destruct (Hhigh i ltac:(lia)) as [E1 E2], (Hhigh' i ltac:(lia)) as [E1' E2']]);
    congruence.
Qed.

Lemma elem_of_grid_segments (n a b : Z) :
  (a, b) ∈ segments (grid_indices n) ->
  exists x z, 0 <= x < n /\ 0 <= z < n /\ a = z * (n + 1) + x /\
              (b = a + 1 \/ b = a + n + 1).
Proof.
  rewrite segments_grid_indices. intros Hin.
  apply list_elem_of_bind in Hin as (z & Hin & Hz).
  apply list_elem_of_bind in Hin as (x & Hin & Hx).
  apply elem_of_seqZ in Hz, Hx. exists x, z.
  unfold cell_segments in Hin.
  apply elem_of_cons in Hin as [Heq|Hin].
  { inversion Heq. repeat split; try lia. }
  apply elem_of_cons in Hin as [Heq|Hin].
  { inversion Heq. repeat split; try lia. }
  by apply elem_of_nil in Hin.
Qed.

Lemma grid_segment_drawn (n x z : Z) :
  0 <= x < n -> 0 <= z < n ->
  ((z * (n + 1) + x, z * (n + 1) + x + 1) ∈ segments (grid_indices n)) /\
  ((z * (n + 1) + x, z * (n + 1) + x + n + 1) ∈ segments (grid_indices n)).
Proof.
  intros Hx Hz. rewrite segments_grid_indices.
  split; apply list_elem_of_bind; exists z;
    (split; [|apply elem_of_seqZ; lia]);
    apply list_elem_of_bind; exists x;
    (split; [|apply elem_of_seqZ; lia]); unfold cell_segments.
  - apply elem_of_cons. by left.
  - apply elem_of_cons. right. apply elem_of_cons. by left.
Qed.

(** X8.  The index loops stop one cell short of the far side: the
    mesh has the lines along the near borders (row 0 and column 0)
    but not those along the far borders (row n and column n), and the
    far corner vertex, the last of the vertex buffer, is in no
    segment at all. *)
Theorem grid_far_border_not_drawn (n k : Z) :
  0 <= k < n ->
  let row z x := z * (n + 1) + x in
  ((row 0 k, row 0 (k + 1)) ∈ segments (grid_indices n)) /\
  ((row k 0, row (k + 1) 0) ∈ segments (grid_indices n)) /\
  ((row n k, row n (k + 1)) ∉ segments (grid_indices n)) /\
  ((row k n, row (k + 1) n) ∉ segments (grid_indices n)) /\
  ((n + 1) * (n + 1) - 1 ∉ grid_indices n).
Proof.
  intros Hk row. subst row. cbv beta.
  split; [|split; [|split; [|split]]].
  - destruct (grid_segment_drawn n k 0) as [H _]; [lia..|].
    replace (0 * (n + 1) + (k + 1)) with (0 * (n + 1) + k + 1) by lia. exact H.
  - destruct (grid_segment_drawn n 0 k) as [_ H]; [lia..|].
    replace ((k + 1) * (n + 1) + 0) with (k * (n + 1) + 0 + n + 1) by lia. exact H.
  - intros Hin. apply elem_of_grid_segments in Hin as (x & z & Hx & Hz & Ha & _).
    assert (z * (n + 1) <= (n - 1) * (n + 1)) by nia. lia.
  - intros Hin. apply elem_of_grid_segments in Hin as (x & z & Hx & Hz & Ha & _).
    destruct (Z_lt_le_dec k z).
    + assert ((k + 1) * (n + 1) <= z * (n + 1)) by nia. lia.
    + assert (z * (n + 1) <= k * (n + 1)) by nia. lia.
  - intros Hin. unfold grid_indices in Hin.
    apply list_elem_of_bind in Hin as (z & Hin & Hz).
    apply list_elem_of_bind in Hin as (x & Hin & Hx).
    apply elem_of_seqZ in Hz, Hx. unfold cell_indices in Hin.
    repeat (apply elem_of_cons in Hin as [Heq|Hin]; [nia|]).
    by apply elem_of_nil in Hin.
Qed.

End Kept.

Lemma uploadObjectsUBO_after_gravity_witness :
  @ubo_mass IEEE (uploadObjectsUBO (foldl (fun o g => simulate g o) twenty [true; false; true]) stale)
  = ubo_mass (uploadObjectsUBO twenty stale).
Proof.
  assert (H : ubo_slots stale) by (repeat split).
  exact (proj1 (proj2 (uploadObjectsUBO_after_gravity [true; false; true] twenty stale H))).
Defined.

Lemma grid_far_border_not_drawn_witness :
  (25 * (25 + 1) + 3, 25 * (25 + 1) + (3 + 1)) ∉ segments (grid_indices gridSize).
Proof.
  assert (H : 0 <= 3 < gridSize) by (unfold gridSize; lia).
  exact (proj1 (proj2 (proj2 (grid_far_border_not_drawn gridSize 3 H)))).
Defined.

(** ** In ideal arithmetic *)

Section Ideal_further.
Local Existing Instance Ideal.
Local Existing Instance Ideal_trig.
Local Open Scope R_scope.

Ltac real_ops :=
  cbv [flt dbl f_add f_sub f_mul f_div f_sqrt f_ltb d_add d_sub d_mul d_div
       d_sqrt d_ltb f2d d2f f_pi f_of_int f_sin f_cos Ideal Ideal_trig] in *.

Ltac split_ltb :=
  match goal with
  | |- context [ideal_ltb ?a ?b] =>
      let H := fresh "Hlt" in
      destruct (ideal_ltb a b) eqn:H;
      [apply ltb_lt in H | apply ltb_ge in H]
  end.

(** X10.  On any camera the handlers can produce, a scroll keeps the
    radius between minRadius = 1e10 and maxRadius = 1e12, moves it by
    yoffset·zoomSpeed when that stays in range, never moves it the
    wrong way (a positive yoffset zooms in), and leaves azimuth and
    elevation alone. *)
Theorem scroll_zooms_within_limits (evs : list Event) (xo yo : R) :
  let c := fst (run evs) in
  let c' := processScroll xo yo c in
  10000000000 <= radius c' <= 1000000000000 /\
  (0 <= yo -> radius c' <= radius c) /\
  (yo <= 0 -> radius c <= radius c') /\
  (10000000000 <= radius c - yo * 25000000000 <= 1000000000000 ->
   radius c' = radius c - yo * 25000000000) /\
  azimuth c' = azimuth c /\ elevation c' = elevation c.
Proof.
  intros c c'. pose proof (run_ok evs) as [He Hr Hmin Hmax Ht].
  pose proof (run_settings_kept evs) as (_ & _ & _ & _ & _ & Hz & _).
  fold c in He, Hr, Hmin, Hmax, Hz.
  assert (Hc' : radius c' = glm_clamp (radius c - yo * 25000000000)
                              10000000000 1000000000000).
  { subst c'. unfold processScroll.
    cbn [update set_moving set_radius radius]. by rewrite Hz, Hmin, Hmax. }
  rewrite Hc'. unfold glm_clamp, glm_min, glm_max. real_ops.
  destruct (ideal_ltb (radius c - yo * 25000000000) 10000000000) eqn:Hlo;
    [apply ltb_lt in Hlo | apply ltb_ge in Hlo];
    split_ltb; repeat split; try reflexivity; intros; nra.
Qed.

Lemma scroll_zooms_within_limits_witness :
  radius (processScroll 0 1 (fst (run []))) <= radius (fst (run [])).
Proof.
  exact (proj1 (proj2 (scroll_zooms_within_limits [] 0 1)) Rle_0_1).
Defined.

(** *** The curvature grid and the horizon test *)

(** X12.  Outside the horizon of a body of non-negative mass the
    warp rises with the distance: of two grid points outside, the one
    further from the body is lowered less. *)
Theorem warp_rises_with_distance (obj : ObjectData) (x1 z1 x2 z2 : R) :
  0 <= mass obj ->
  schwarzschild obj < planar_dist obj x1 z1 <= planar_dist obj x2 z2 ->
  contribution obj x1 z1 <= contribution obj x2 z2.
Proof.
  intros Hm [Hout Hle]. unfold contribution.
  assert (Hr : 0 <= schwarzschild obj).
  { unfold schwarzschild. rewrite lit_two. pose proof G_pos. pose proof C_pos.
    real_ops. apply Rmult_le_pos.
    - apply Rmult_le_pos; [lra|exact Hm].
    - apply Rlt_le, Rinv_0_lt_compat. nra. }
  set (r_s := schwarzschild obj) in *.
  set (d1 := planar_dist obj x1 z1) in *. set (d2 := planar_dist obj x2 z2) in *.
  change (d_ltb r_s d1) with (ideal_ltb r_s d1).
  change (d_ltb r_s d2) with (ideal_ltb r_s d2).
  rewrite (proj2 (ltb_lt r_s d1)), (proj2 (ltb_lt r_s d2)) by (real_ops; lra).
  rewrite !outside_eq.
  assert (sqrt (r_s * (d1 - r_s)) <= sqrt (r_s * (d2 - r_s))).
  { apply sqrt_le_1_alt. real_ops. nra. }
  real_ops. lra.
Qed.

Lemma pebble_dist (x : R) : 0 <= x -> planar_dist pebble x 0 = x.
Proof.
  intros Hx. unfold planar_dist.
  cbn [pebble mkObject posRadius vec3_of_vec4 v3x v3z v4x v4z]. real_ops.
  replace ((x - 0) * (x - 0) + (0 - 0) * (0 - 0)) with (x * x) by ring.
  by apply sqrt_square.
Qed.

Lemma warp_rises_with_distance_witness :
  contribution pebble 1 0 <= contribution pebble 2 0.
Proof.
  apply warp_rises_with_distance.
  - cbn [pebble mkObject mass]. lra.
  - rewrite !pebble_dist by lra. split; [|lra].
    unfold schwarzschild. cbn [pebble mkObject mass]. rewrite lit_two.
    change (@G Ideal) with (667430 / 10000000000000000).
    change (@C Ideal) with 299792458. real_ops. lra.
Defined.

(** X13.  [Intercept] answers whether the point is strictly inside
    the ball of radius |r_s| around the black hole: it compares
    squares, so the sign of r_s does not matter, and a point on the
    horizon itself is not intercepted. *)
Theorem Intercept_inside_horizon (b : BlackHole) (px py pz : R) :
  let dx := px - v3x (bh_position b) in
  let dy := py - v3y (bh_position b) in
  let dz := pz - v3z (bh_position b) in
  Intercept b px py pz = true <->
  sqrt (dx * dx + dy * dy + dz * dz) < Rabs (bh_r_s b).
Proof.
  intros dx dy dz. unfold Intercept. real_ops. fold dx dy dz.
  rewrite ltb_lt. set (d2 := dx * dx + dy * dy + dz * dz).
  assert (Hd2 : 0 <= d2) by (subst d2; nra).
  rewrite <- sqrt_Rsqr_abs. unfold Rsqr. split.
  - intros Hlt. apply sqrt_lt_1_alt. lra.
  - intros Hlt. apply sqrt_lt_0_alt in Hlt. exact Hlt.
Qed.

End Ideal_further.

(** ** In binary32 and binary64 *)

Section IEEE_further.
Local Existing Instance IEEE.
Local Existing Instance IEEE_rounding.

Ltac binary_ops :=
  cbv [flt dbl f_add f_sub f_mul f_div f_sqrt f_ltb d_add d_sub d_mul d_div
       d_sqrt d_ltb f2d d2f f_ceil f_to_uint f_of_int IEEE IEEE_rounding] in *.

(** *** Bodies at the same place, and bodies without mass *)

Lemma SFsub_diag (prec emax : Z) (x : spec_float) :
  SFsub prec emax x x = S754_zero false \/ SFsub prec emax x x = S754_nan.
Proof.
  destruct x as [s|s| |s m e]; cbn [SFsub].
  - left. by destruct s.
  - right. by destruct s.
  - by right.
  - left. by rewrite Z.sub_diag.
Qed.

Lemma length_diag_not_positive (x y z : spec_float) :
  let dx := SFsub 24 128 x x in
  let dy := SFsub 24 128 y y in
  let dz := SFsub 24 128 z z in
  SFltb (S754_zero false)
    (SFsqrt 24 128
       (SFadd 24 128 (SFadd 24 128 (SFmul 24 128 dx dx) (SFmul 24 128 dy dy))
          (SFmul 24 128 dz dz))) = false.
Proof.
  cbv zeta.
  destruct (SFsub_diag 24 128 x) as [-> | ->],
           (SFsub_diag 24 128 y) as [-> | ->],
           (SFsub_diag 24 128 z) as [-> | ->]; vm_compute; reflexivity.
Qed.

(** X18.  Two bodies at the same place do not pull on each other,
    whatever their coordinates (zeros, infinities and NaN included):
    the guard [distance > 0] fails, so the division by the distance
    is never reached. *)
Theorem coincident_bodies_do_not_pull (obj obj2 : ObjectData) (totalAcc : vec3) :
  vec3_of_vec4 (posRadius obj2) = vec3_of_vec4 (posRadius obj) ->
  pull obj obj2 totalAcc = totalAcc.
Proof.
  intros Hsame. unfold pull. rewrite Hsame.
  destruct (vec3_of_vec4 (posRadius obj)) as [x y z].
  unfold length3, dot, vec3_sub. cbn [v3x v3y v3z].
  change (f_lit 0 0) with (S754_zero false). binary_ops.
  by rewrite (length_diag_not_positive x y z).
Qed.

Lemma coincident_bodies_do_not_pull_witness :
  pull (twin 1) (twin 1) (vec3_splat (f_lit 0 0)) = vec3_splat (f_lit 0 0).
Proof.
  apply (coincident_bodies_do_not_pull (twin 1) (twin 1)). reflexivity.
Defined.

Lemma SFmul_zero_or_nan (prec emax : Z) (x y : spec_float) :
  is_zero_or_nan x = true -> is_zero_or_nan (SFmul prec emax x y) = true.
Proof. destruct x, y; cbn [SFmul is_zero_or_nan]; done. Qed.

Lemma SFdiv_zero_or_nan (prec emax : Z) (x y : spec_float) :
  is_zero_or_nan x = true -> is_zero_or_nan (SFdiv prec emax x y) = true.
Proof. destruct x, y; cbn [SFdiv is_zero_or_nan]; done. Qed.

Lemma SFdiv_by_zero (prec emax : Z) (x : spec_float) (s : bool) :
  is_zero_or_nan x = true -> SFdiv prec emax x (S754_zero s) = S754_nan.
Proof. destruct x; cbn [SFdiv is_zero_or_nan]; done. Qed.

Lemma SFmul_nan_r (prec emax : Z) (x : spec_float) :
  SFmul prec emax x S754_nan = S754_nan.
Proof. by destruct x. Qed.

Lemma SFadd_nan_r (prec emax : Z) (x : spec_float) :
  SFadd prec emax x S754_nan = S754_nan.
Proof. by destruct x. Qed.

Lemma SFsub_nan_r (prec emax : Z) (x : spec_float) :
  SFsub prec emax x S754_nan = S754_nan.
Proof. by destruct x. Qed.

(** X19.  A body of mass zero is not a test particle: the force on it
    is divided by its mass, 0/0, so as soon as another body is at a
    positive distance its pull is NaN in all three components,
    whatever the other body's mass and the pull summed so far. *)
Theorem massless_body_pull_is_nan (obj obj2 : ObjectData) (totalAcc : vec3) (s : bool) :
  mass obj = S754_zero s ->
  let delta := vec3_sub (vec3_of_vec4 (posRadius obj2)) (vec3_of_vec4 (posRadius obj)) in
  (length3 delta >? f_lit 0 0)%flt = true ->
  pull obj obj2 totalAcc = Vec3 S754_nan S754_nan S754_nan.
Proof.
  intros Hm delta Hd. unfold pull. fold delta. rewrite Hd, Hm.
  set (d := length3 delta).
  assert (Hforce : d2f ((G * f2d (S754_zero s) * f2d (mass obj2))
                        / f2d (d * d)%flt / f2d (S754_zero s))%dbl = S754_nan).
  { destruct constants_binary as (HG & _). rewrite HG. binary_ops.
    cbn [ieee_convert].
    rewrite SFdiv_by_zero; [done|].
    apply SFdiv_zero_or_nan, SFmul_zero_or_nan. reflexivity. }
  rewrite Hforce. unfold vec3_add, vec3_scale. cbn [v3x v3y v3z]. binary_ops.
  by rewrite !SFmul_nan_r, !SFadd_nan_r.
Qed.

Lemma massless_body_pull_is_nan_witness :
  pull dust (twin 1) (vec3_splat (f_lit 0 0)) = Vec3 S754_nan S754_nan S754_nan.
Proof.
  apply (massless_body_pull_is_nan dust (twin 1) _ false).
  - reflexivity.
  - vm_compute. reflexivity.
Defined.

(** *** NaN coordinates and the clamps *)

Lemma glm_clamp_nan (lo hi : spec_float) : glm_clamp S754_nan lo hi = S754_nan.
Proof.
  unfold glm_clamp, glm_min, glm_max. binary_ops.
  change (SFltb S754_nan lo) with false. cbv iota.
  replace (SFltb hi S754_nan) with false; [done|].
  unfold SFltb. by destruct hi.
Qed.

Lemma std_clamp_nan (lo hi : spec_float) : std_clamp S754_nan lo hi = S754_nan.
Proof.
  unfold std_clamp. binary_ops.
  change (SFltb S754_nan lo) with false. cbv iota.
  replace (SFltb hi S754_nan) with false; [done|].
  unfold SFltb. by destruct hi.
Qed.

Lemma processScroll_nan_radius (xo yo : spec_float) (c : Camera) :
  is_nan (radius c) = true \/ is_nan yo = true ->
  is_nan (radius (processScroll xo yo c)) = true.
Proof.
  intros Hnan. unfold processScroll. cbn [update set_moving set_radius radius].
  assert (Hr : d2f (f2d (radius c) - yo * zoomSpeed c)%dbl = S754_nan).
  { binary_ops. destruct Hnan as [Hnan|Hnan].
    - by destruct (radius c).
    - destruct yo; try done. cbn [SFmul]. by rewrite SFsub_nan_r. }
  by rewrite Hr, glm_clamp_nan.
Qed.

Lemma handle_nan_radius (s : Camera * bool) (ev : Event) :
  is_nan (radius (fst s)) = true -> is_nan (radius (fst (handle s ev))) = true.
Proof.
  intros Hnan. destruct ev; cbn [handle fst].
  - unfold processMouseMove.
    destruct (dragging s.1 && panning s.1); [exact Hnan|].
    destruct (dragging s.1 && negb (panning s.1)); exact Hnan.
  - destruct s as [c g]. unfold processMouseButton. cbn [fst] in *.
    repeat (destruct (_ || _) || destruct (_ =? _)%Z); exact Hnan.
  - apply processScroll_nan_radius. by left.
  - destruct s as [c g]. by rewrite processKey_camera.
Qed.

Lemma processMouseMove_nan_elevation (x y : spec_float) (c : Camera) :
  dragging c = true -> panning c = false ->
  is_nan (elevation c) = true \/ is_nan y = true ->
  is_nan (elevation (processMouseMove x y c)) = true.
Proof.
  intros Hd Hp Hnan. unfold processMouseMove. rewrite Hd, Hp.
  cbn [andb negb update set_moving set_last set_orbit elevation].
  assert (He : (elevation c - d2f (y - lastY c)%dbl * orbitSpeed c)%flt = S754_nan).
  { binary_ops. destruct Hnan as [Hnan|Hnan].
    - by destruct (elevation c).
    - destruct y; try done. cbn [SFsub ieee_convert SFmul]. by rewrite SFsub_nan_r. }
  by rewrite He, std_clamp_nan.
Qed.

Lemma handle_nan_elevation (s : Camera * bool) (ev : Event) :
  is_nan (elevation (fst s)) = true -> is_nan (elevation (fst (handle s ev))) = true.
Proof.
  intros Hnan. destruct ev; cbn [handle fst].
  - destruct (dragging s.1 && negb (panning s.1)) eqn:Hdrag.
    + apply andb_true_iff in Hdrag as [Hd Hp]. apply negb_true_iff in Hp.
      apply processMouseMove_nan_elevation; auto.
    + unfold processMouseMove. rewrite Hdrag.
      destruct (dragging s.1 && panning s.1); exact Hnan.
  - destruct s as [c g]. unfold processMouseButton. cbn [fst] in *.
    repeat (destruct (_ || _) || destruct (_ =? _)%Z); exact Hnan.
  - exact Hnan.
  - destruct s as [c g]. by rewrite processKey_camera.
Qed.

(** X20.  The clamps do not filter NaN.  A scroll whose offset is NaN
    makes the radius NaN, and a drag to a NaN ordinate makes the
    elevation NaN, whatever the camera was; and no later event, of
    any kind, brings either of them back. *)
Theorem nan_input_sticks (c : Camera) (g : bool) (x : spec_float) (evs : list Event) :
  is_nan (radius (fst (foldl handle (processScroll x S754_nan c, g) evs))) = true /\
  (dragging c = true -> panning c = false ->
   is_nan (elevation (fst (foldl handle (processMouseMove x S754_nan c, g) evs))) = true).
Proof.
  split.
  - induction evs as [|ev evs IH] using rev_ind.
    + apply processScroll_nan_radius. by right.
    + rewrite foldl_snoc. by apply handle_nan_radius.
  - intros Hd Hp. induction evs as [|ev evs IH] using rev_ind.
    + apply processMouseMove_nan_elevation; auto.
    + rewrite foldl_snoc. by apply handle_nan_elevation.
Qed.

Lemma nan_input_sticks_witness :
  let c := fst (run drag_down) in
  is_nan (elevation (fst (foldl handle (processMouseMove (d_lit 0 0) S754_nan c, false)
                                hover))) = true.
Proof.
  intros c.
  assert (Hd : dragging c = true) by (vm_compute; reflexivity).
  assert (Hp : panning c = false) by (vm_compute; reflexivity).
  exact (proj2 (nan_input_sticks c false (d_lit 0 0) hover) Hd Hp).
Defined.

(** *** The accretion disk *)

(** X15.  The disk [uploadDiskUBO] hands to the shader, computed from
    the global [SagA], lies outside its horizon: r_s, about 1.268e10,
    is below the inner radius float(r_s * 2.2f), about 2.790e10,
    which is below the outer radius float(r_s * 5.2f), about
    6.596e10; the two other fields are 2 and 1e9. *)
Theorem disk_outside_horizon :
  let disk := uploadDiskUBO SagA in
  bh_r_s SagA = S754_finite false 6650006860616424 (-19) /\
  innerRadius disk = S754_finite false 13625264 11 /\
  outerRadius disk = S754_finite false 16102583 12 /\
  (bh_r_s SagA <? f2d (innerRadius disk))%dbl = true /\
  (innerRadius disk <? outerRadius disk)%flt = true /\
  numRays disk = f_lit 2 0 /\ thickness disk = f_lit 1 9.
Proof. vm_compute. repeat split. Qed.

(** *** The work-group counts *)

Lemma groups_upto_8192 :
  forallb (fun n =>
    match ieee_to_uint (ieee_ceil 24 128
            (SFdiv 24 128 (binary_normalize 24 128 n 0 false) (ieee_lit 24 128 16 0))) with
    | Some g => g =? (n + 15) / 16
    | None => false
    end) (seqZ 1 8192) = true.
Proof. vm_compute. reflexivity. Qed.

Lemma groups_binary32 (n : Z) :
  1 <= n <= 8192 ->
  f_to_uint (f_ceil (f_of_int n / f_lit 16 0)%flt) = Some ((n + 15) / 16).
Proof.
  intros Hn. pose proof groups_upto_8192 as Hall.
  rewrite forallb_forall in Hall. specialize (Hall n).
  binary_ops. change (f_lit 16 0) with (ieee_lit 24 128 16 0).
  destruct (ieee_to_uint _) as [g|].
  - f_equal. apply Z.eqb_eq, Hall. apply list_elem_of_In, elem_of_seqZ. lia.
  - exfalso. enough (false = true) by done. apply Hall.
    apply list_elem_of_In, elem_of_seqZ. lia.
Qed.

(** X21.  In binary32, for every compute resolution from 1 to 8192
    the float computation ceil(size / 16.0f) cast to GLuint is
    exactly the integer ⌈size / 16⌉ = (size + 15) div 16, on both
    axes: no rounding error makes the dispatch one group short or
    one too many. *)
Theorem dispatchGroups_binary32 (e : Engine) (cam : Camera) :
  1 <= COMPUTE_WIDTH e <= 8192 -> 1 <= COMPUTE_HEIGHT e <= 8192 ->
  dispatchGroups e cam =
  (Some ((fst (dispatchCompute e cam) + 15) / 16),
   Some ((snd (dispatchCompute e cam) + 15) / 16)).
Proof.
  intros Hw Hh. unfold dispatchGroups, dispatchCompute.
  destruct (moving cam); cbn [fst snd]; by rewrite !groups_binary32 by lia.
Qed.

Lemma dispatchGroups_binary32_witness :
  dispatchGroups engine camera = (Some 13, Some 10).
Proof.
  apply (dispatchGroups_binary32 engine camera); vm_compute; split; discriminate.
Defined.

End IEEE_further.
